(** * bemailparts: parsing, validating and reassembling e-mail addresses

    A shallow embedding of [bemailparts.go] (package [bemailparts], the
    variant with [DomainTLDWithoutDot] and first-dot splitting) and of
    [errors.go].

    Go strings are byte sequences: they are modelled as [string], whose
    characters are 8-bit [ascii] values.  Run-time panics (slicing or
    indexing out of range) are modelled by the [Panic] result of the [go]
    type, a method that mutates its receiver returns the new receiver
    together with the returned [error] value. *)

From Stdlib Require Import Bool List ZArith Lia Ascii String.
Import ListNotations.

Open Scope string_scope.
Open Scope Z_scope.

(** ** Results of Go computations *)

Inductive go (A : Type) : Type :=
| Return (a : A)
| Panic.

Arguments Return {A} a.
Arguments Panic {A}.

Definition bind {A B : Type} (m : go A) (f : A -> go B) : go B :=
  match m with
  | Return a => f a
  | Panic => Panic
  end.

Notation "x <- m ;; k" := (bind m (fun x => k))
  (at level 61, m at next level, right associativity).

(** ** The parts of package [strings] the program uses *)

Module strings.

(** [strings.HasPrefix(s, prefix)] *)
Definition HasPrefix (s pre : string) : bool := String.prefix pre s.

(** [s[n:]] for an index already known to be in range. *)
Fixpoint drop (n : nat) (s : string) : string :=
  match n, s with
  | O, _ => s
  | S n', String _ s' => drop n' s'
  | S _, EmptyString => EmptyString
  end.

(** [s[:n]] for an index already known to be in range. *)
Fixpoint take (n : nat) (s : string) : string :=
  match n, s with
  | O, _ => EmptyString
  | S n', String c s' => String c (take n' s')
  | S _, EmptyString => EmptyString
  end.

(** [strings.TrimPrefix(s, prefix)] *)
Definition TrimPrefix (s pre : string) : string :=
  if HasPrefix s pre then drop (String.length pre) s else s.

(** [strings.Index(s, substr)]: the index of the first instance of
    [substr] in [s], or [-1]. *)
Fixpoint Index_from (i : Z) (s substr : string) : Z :=
  if String.prefix substr s then i
  else match s with
       | EmptyString => -1
       | String _ s' => Index_from (i + 1) s' substr
       end.

Definition Index (s substr : string) : Z := Index_from 0 s substr.

(** [strings.Split(s, sep)] for a non-empty separator: the substrings
    between the instances of [sep] (one substring more than there are
    instances).  [skip] counts the bytes of a separator just found that are
    still to be passed over. *)
Fixpoint Split_aux (sep : string) (skip : nat) (s : string) : list string :=
  match s with
  | EmptyString => [EmptyString]
  | String c s' =>
      match skip with
      | S k => Split_aux sep k s'
      | O =>
          if String.prefix sep s
          then EmptyString :: Split_aux sep (String.length sep - 1) s'
          else match Split_aux sep 0 s' with
               | piece :: pieces => String c piece :: pieces
               | [] => [String c EmptyString]
               end
      end
  end.

Definition Split (s sep : string) : list string := Split_aux sep 0 s.

(** [strings.LastIndex(s, substr)]: the index of the last instance of
    [substr] in [s], or [-1]. *)
Fixpoint LastIndex (s substr : string) : Z :=
  match s with
  | EmptyString => if String.prefix substr s then 0 else -1
  | String _ s' =>
      let later := LastIndex s' substr in
      if 0 <=? later then later + 1
      else if String.prefix substr s then 0 else -1
  end.

End strings.

(** Slice expressions [s[:hi]] and [s[lo:]]; Go panics when the index is
    negative or exceeds [len(s)]. *)
Definition slice_to (s : string) (hi : Z) : go string :=
  if (0 <=? hi) && (hi <=? Z.of_nat (String.length s))
  then Return (strings.take (Z.to_nat hi) s)
  else Panic.

Definition slice_from (s : string) (lo : Z) : go string :=
  if (0 <=? lo) && (lo <=? Z.of_nat (String.length s))
  then Return (strings.drop (Z.to_nat lo) s)
  else Panic.

(** Index expression [parts[i]] on a slice of strings. *)
Definition at_index (parts : list string) (i : nat) : go string :=
  match nth_error parts i with
  | Some p => Return p
  | None => Panic
  end.

(** ** The fragment of package [regexp] the program uses

    The five patterns of the program are sequences of four kinds of items:
    the anchors [^] and [$] (no flag is set, so they stand for the beginning
    and the end of the text), a literal character, and a repeated character
    class [[...]+].  A pattern is the list of its items, and concatenating
    two pattern strings is appending the lists. *)

Module regexp.

(** A character class is a list of inclusive ranges; a single character
    [c] is the range [(c, c)]. *)
Definition class := list (ascii * ascii).

Definition in_class (cls : class) (c : ascii) : bool :=
  existsb (fun r => (fst r <=? c)%char && (c <=? snd r)%char) cls.

Inductive item : Type :=
| Bol                      (* ^ *)
| Eol                      (* $ *)
| Chr (c : ascii)          (* a literal character *)
| ClassPlus (cls : class). (* [...]+ *)

Definition pattern := list item.

(** [match_here p bot s]: some prefix of [s] matches [p]; [bot] tells
    whether [s] starts at the beginning of the text. *)
Fixpoint match_here (p : pattern) : bool -> string -> bool :=
  match p with
  | [] => fun _ _ => true
  | Bol :: p' => fun bot s => bot && match_here p' bot s
  | Eol :: p' => fun bot s =>
      match s with
      | EmptyString => match_here p' bot s
      | String _ _ => false
      end
  | Chr c :: p' => fun _ s =>
      match s with
      | EmptyString => false
      | String a s' => Ascii.eqb a c && match_here p' false s'
      end
  | ClassPlus cls :: p' => fun _ s =>
      (fix plus (s : string) : bool :=
         match s with
         | EmptyString => false
         | String a s' => in_class cls a && (match_here p' false s' || plus s')
         end) s
  end.

(** The search for a match starting at any position of the text. *)
Fixpoint search (p : pattern) (bot : bool) (s : string) : bool :=
  match_here p bot s ||
  match s with
  | EmptyString => false
  | String _ s' => search p false s'
  end.

(** [re.MatchString(s)]: whether [s] contains any match of [re]. *)
Definition MatchString (re : pattern) (s : string) : bool := search re true s.

(** [regexp.MustCompile] of a well-formed pattern is the pattern. *)
Definition MustCompile (p : pattern) : pattern := p.

End regexp.

Import regexp.

(** ** errors.go *)

Inductive error : Type :=
| ErrInvalidEmailFormat
| ErrInvalidEmailUsernameFormat
| ErrInvalidEmailDomainFormat
| ErrInvalidEmailDomainNameFormat
| ErrInvalidEmailDomainTLDFormat.

(** ** bemailparts.go *)

Definition emailSeparator : string := "@".
Definition domainSeparator : string := ".".

(** The separators are one character long; inside a pattern they stand for
    that character literally ([domainSeparator] is escaped there). *)
Definition literal (sep : string) : pattern :=
  map Chr (list_ascii_of_string sep).

Definition alpha : class := [("a", "z")%char; ("A", "Z")%char].
Definition alnum : class := (alpha ++ [("0", "9")%char])%list.

(** [[a-zA-Z0-9._%+-]] and [[a-zA-Z0-9.-]] *)
Definition usernameChars : class :=
  (alnum ++ [(".", ".")%char; ("_", "_")%char; ("%", "%")%char;
             ("+", "+")%char; ("-", "-")%char])%list.
Definition domainNameChars : class :=
  (alnum ++ [(".", ".")%char; ("-", "-")%char])%list.

(** [^[a-zA-Z0-9._%+-]+] *)
Definition usernamePattern : pattern := [Bol; ClassPlus usernameChars].
(** [[a-zA-Z0-9.-]+] *)
Definition domainNamePattern : pattern := [ClassPlus domainNameChars].
(** [[a-zA-Z]+$] *)
Definition domainTLDPattern : pattern := [ClassPlus alpha; Eol].
Definition domainPattern : pattern :=
  (domainNamePattern ++ literal domainSeparator ++ domainTLDPattern)%list.
Definition emailPattern : pattern :=
  (usernamePattern ++ literal emailSeparator ++ domainPattern)%list.

Definition usernameRegex := MustCompile usernamePattern.
Definition domainNameRegex := MustCompile domainNamePattern.
Definition domainTLDRegex := MustCompile domainTLDPattern.
Definition domainRegex := MustCompile domainPattern.
Definition emailRegex := MustCompile emailPattern.

Record bEmailParts : Type := mkEmailParts {
  username : string;
  domain : string
}.

(** What a constructor returns: the instance, or the error (with a nil
    instance). *)
Inductive result : Type :=
| Ok (e : bEmailParts)
| Err (err : error).

Definition generateEmail (username domain : string) : string :=
  username ++ emailSeparator ++ domain.

Definition generateDomain (domainName domainTLD : string) : string :=
  let domainTLD :=
    if negb (strings.HasPrefix domainTLD domainSeparator)
    then domainSeparator ++ domainTLD
    else domainTLD in
  domainName ++ domainTLD.

Definition New (email : string) : go result :=
  if negb (MatchString emailRegex email) then Return (Err ErrInvalidEmailFormat)
  else
    let parts := strings.Split email emailSeparator in
    username <- at_index parts 0 ;;
    domain <- at_index parts 1 ;;
    Return (Ok (mkEmailParts username domain)).

Definition NewFromUsernameAndDomain (username domain : string) : go result :=
  if negb (MatchString usernameRegex username)
  then Return (Err ErrInvalidEmailUsernameFormat)
  else if negb (MatchString domainRegex domain)
  then Return (Err ErrInvalidEmailDomainFormat)
  else New (generateEmail username domain).

Definition NewFromFullParts (username domainName domainTLD : string)
  : go result :=
  if negb (MatchString domainNameRegex domainName)
  then Return (Err ErrInvalidEmailDomainNameFormat)
  else if negb (MatchString domainTLDRegex domainTLD)
  then Return (Err ErrInvalidEmailDomainTLDFormat)
  else NewFromUsernameAndDomain username (generateDomain domainName domainTLD).

(** *** Accessors *)

Definition Email (e : bEmailParts) : string :=
  generateEmail (username e) (domain e).

Definition Username (e : bEmailParts) : string := username e.

Definition Domain (e : bEmailParts) : string := domain e.

Definition DomainName (e : bEmailParts) : go string :=
  slice_to (domain e) (strings.Index (domain e) domainSeparator).

Definition DomainTLD (e : bEmailParts) : go string :=
  slice_from (domain e) (strings.Index (domain e) domainSeparator).

Definition DomainTLDWithoutDot (e : bEmailParts) : go string :=
  tld <- DomainTLD e ;;
  Return (strings.TrimPrefix tld domainSeparator).

(** The method [String()]; [String] is taken by the constructor of
    [string]. *)
Definition String_ (e : bEmailParts) : string := Email e.

(** *** Setters

    A setter returns the receiver after the call and the returned error
    ([None] is [nil]). *)

Definition SetUsername (v : string) (e : bEmailParts)
  : go (bEmailParts * option error) :=
  if negb (MatchString usernameRegex v)
  then Return (e, Some ErrInvalidEmailUsernameFormat)
  else Return (mkEmailParts v (domain e), None).

Definition SetDomain (v : string) (e : bEmailParts)
  : go (bEmailParts * option error) :=
  if negb (MatchString domainRegex v)
  then Return (e, Some ErrInvalidEmailDomainFormat)
  else Return (mkEmailParts (username e) v, None).

Definition SetDomainName (v : string) (e : bEmailParts)
  : go (bEmailParts * option error) :=
  if negb (MatchString domainNameRegex v)
  then Return (e, Some ErrInvalidEmailDomainNameFormat)
  else
    tld <- DomainTLD e ;;
    Return (mkEmailParts (username e) (generateDomain v tld), None).

Definition SetDomainTLD (v : string) (e : bEmailParts)
  : go (bEmailParts * option error) :=
  if negb (MatchString domainTLDRegex v)
  then Return (e, Some ErrInvalidEmailDomainTLDFormat)
  else
    name <- DomainName e ;;
    Return (mkEmailParts (username e) (generateDomain name v), None).

(** * Vocabulary of the properties *)

(** [occurs c s]: the character [c] occurs in [s]. *)
Fixpoint occurs (c : ascii) (s : string) : bool :=
  match s with
  | EmptyString => false
  | String a s' => Ascii.eqb a c || occurs c s'
  end.

(** [all_in cls s]: every character of [s] belongs to the class. *)
Fixpoint all_in (cls : class) (s : string) : bool :=
  match s with
  | EmptyString => true
  | String a s' => in_class cls a && all_in cls s'
  end.

(** [any_in cls s]: some character of [s] belongs to the class. *)
Fixpoint any_in (cls : class) (s : string) : bool :=
  match s with
  | EmptyString => false
  | String a s' => in_class cls a || any_in cls s'
  end.

(** [last_in cls s]: [s] has a last character, and it belongs to the
    class. *)
Fixpoint last_in (cls : class) (s : string) : bool :=
  match s with
  | EmptyString => false
  | String a s' =>
      match s' with
      | EmptyString => in_class cls a
      | String _ _ => last_in cls s'
      end
  end.

(** [normalized tld]: the TLD with its dot, as [generateDomain] appends
    it. *)
Definition normalized (tld : string) : string :=
  if strings.HasPrefix tld "." then tld else "." ++ tld.

(** The grammars, as the patterns spell them.

    [domain_shape dom]: a non-empty run of domain-name characters, a dot,
    and a non-empty run of letters up to the end.  [email_shape u dom]: a
    non-empty run of username characters for [u], and [dom] as above. *)

Definition domain_shape (dom : string) : Prop :=
  exists d t, dom = d ++ "." ++ t
              /\ d <> "" /\ all_in domainNameChars d = true
              /\ t <> "" /\ all_in alpha t = true.

Definition email_shape (u dom : string) : Prop :=
  u <> "" /\ all_in usernameChars u = true /\ domain_shape dom.

(** A call of one of the four setters. *)
Inductive call : Type :=
| CallSetUsername (v : string)
| CallSetDomain (v : string)
| CallSetDomainName (v : string)
| CallSetDomainTLD (v : string).

Definition run (c : call) (e : bEmailParts) : go (bEmailParts * option error) :=
  match c with
  | CallSetUsername v => SetUsername v e
  | CallSetDomain v => SetDomain v e
  | CallSetDomainName v => SetDomainName v e
  | CallSetDomainTLD v => SetDomainTLD v e
  end.

(** An instance returned by a successful call of a constructor. *)
Inductive constructed (e : bEmailParts) : Prop :=
| by_New (email : string) :
    New email = Return (Ok e) -> constructed e
| by_NewFromUsernameAndDomain (username domain : string) :
    NewFromUsernameAndDomain username domain = Return (Ok e) -> constructed e
| by_NewFromFullParts (username domainName domainTLD : string) :
    NewFromFullParts username domainName domainTLD = Return (Ok e) -> constructed e.

(** The instances a caller can observe: constructed, then any number of
    setter calls, whatever they return. *)
Inductive reachable : bEmailParts -> Prop :=
| reach_constructed (e : bEmailParts) : constructed e -> reachable e
| reach_call (e e' : bEmailParts) (c : call) (err : option error) :
    reachable e -> run c e = Return (e', err) -> reachable e'.

(** [unchanged e r err]: the setter call with result [r] returned the error
    [err] and left the receiver [e] as it was, so that every accessor
    answers as before the call. *)
Definition unchanged (e : bEmailParts) (r : go (bEmailParts * option error))
  (err : error) : Prop :=
  exists e', r = Return (e', Some err)
    /\ e' = e
    /\ Email e' = Email e
    /\ Username e' = Username e
    /\ Domain e' = Domain e
    /\ DomainName e' = DomainName e
    /\ DomainTLD e' = DomainTLD e
    /\ DomainTLDWithoutDot e' = DomainTLDWithoutDot e.

(** [decomposes e]: the three derived accessors return, [DomainName()] is
    the part of the domain before its first dot, [DomainTLD()] the part
    from that dot on, and the three decomposition equations hold. *)
Definition decomposes (e : bEmailParts) : Prop :=
  exists name tld tldw,
    DomainName e = Return name
    /\ DomainTLD e = Return tld
    /\ DomainTLDWithoutDot e = Return tldw
    /\ occurs "." name = false
    /\ (exists rest, Domain e = name ++ "." ++ rest /\ tld = "." ++ rest)
    /\ Email e = Username e ++ "@" ++ Domain e
    /\ Domain e = name ++ tld
    /\ tld = "." ++ tldw.

(** * The earlier variant of the file (package [bemailpart])

    [bemailparts.go] also holds the earlier state of the package: the TLD
    pattern has no [$], [generateDomain] always puts a dot between its
    arguments, and [DomainName] and [DomainTLD] split the domain at its
    last dot.  The struct, the separators, the character classes and the
    errors are those above. *)

Module bemailpart.

(** [^[a-zA-Z0-9._%+-]+] *)
Definition usernamePattern : pattern := [Bol; ClassPlus usernameChars].
(** [[a-zA-Z0-9.-]+] *)
Definition domainNamePattern : pattern := [ClassPlus domainNameChars].
(** [[a-zA-Z]+] *)
Definition domainTLDPattern : pattern := [ClassPlus alpha].
Definition domainPattern : pattern :=
  (domainNamePattern ++ literal domainSeparator ++ domainTLDPattern)%list.
Definition emailPattern : pattern :=
  (usernamePattern ++ literal emailSeparator ++ domainPattern)%list.

Definition usernameRegex := MustCompile usernamePattern.
Definition domainNameRegex := MustCompile domainNamePattern.
Definition domainTLDRegex := MustCompile domainTLDPattern.
Definition domainRegex := MustCompile domainPattern.
Definition emailRegex := MustCompile emailPattern.

(** [fmt.Sprintf("%s@%s", username, domain)] *)
Definition generateEmail (username domain : string) : string :=
  username ++ "@" ++ domain.

(** [fmt.Sprintf("%s.%s", domainName, domainTLD)] *)
Definition generateDomain (domainName domainTLD : string) : string :=
  domainName ++ "." ++ domainTLD.

Definition New (email : string) : go result :=
  if negb (MatchString emailRegex email) then Return (Err ErrInvalidEmailFormat)
  else
    let parts := strings.Split email emailSeparator in
    username <- at_index parts 0 ;;
    domain <- at_index parts 1 ;;
    Return (Ok (mkEmailParts username domain)).

Definition NewFromUsernameAndDomain (username domain : string) : go result :=
  if negb (MatchString usernameRegex username)
  then Return (Err ErrInvalidEmailUsernameFormat)
  else if negb (MatchString domainRegex domain)
  then Return (Err ErrInvalidEmailDomainFormat)
  else New (generateEmail username domain).

Definition NewFromFullParts (username domainName domainTLD : string)
  : go result :=
  if negb (MatchString domainNameRegex domainName)
  then Return (Err ErrInvalidEmailDomainNameFormat)
  else if negb (MatchString domainTLDRegex domainTLD)
  then Return (Err ErrInvalidEmailDomainTLDFormat)
  else NewFromUsernameAndDomain username (generateDomain domainName domainTLD).

Definition Email (e : bEmailParts) : string :=
  generateEmail (username e) (domain e).

Definition Username (e : bEmailParts) : string := username e.

Definition Domain (e : bEmailParts) : string := domain e.

Definition DomainName (e : bEmailParts) : go string :=
  slice_to (domain e) (strings.LastIndex (domain e) domainSeparator).

Definition DomainTLD (e : bEmailParts) : go string :=
  slice_from (domain e) (strings.LastIndex (domain e) domainSeparator).

Definition SetUsername (v : string) (e : bEmailParts)
  : go (bEmailParts * option error) :=
  if negb (MatchString usernameRegex v)
  then Return (e, Some ErrInvalidEmailUsernameFormat)
  else Return (mkEmailParts v (domain e), None).

Definition SetDomain (v : string) (e : bEmailParts)
  : go (bEmailParts * option error) :=
  if negb (MatchString domainRegex v)
  then Return (e, Some ErrInvalidEmailDomainFormat)
  else Return (mkEmailParts (username e) v, None).

Definition SetDomainName (v : string) (e : bEmailParts)
  : go (bEmailParts * option error) :=
  if negb (MatchString domainNameRegex v)
  then Return (e, Some ErrInvalidEmailDomainNameFormat)
  else
    tld <- DomainTLD e ;;
    Return (mkEmailParts (username e) (generateDomain v tld), None).

Definition SetDomainTLD (v : string) (e : bEmailParts)
  : go (bEmailParts * option error) :=
  if negb (MatchString domainTLDRegex v)
  then Return (e, Some ErrInvalidEmailDomainTLDFormat)
  else
    name <- DomainName e ;;
    Return (mkEmailParts (username e) (generateDomain name v), None).

Definition String_ (e : bEmailParts) : string := Email e.

(** Setter calls and the instances a caller can observe, as for the
    later variant. *)
Definition run (c : call) (e : bEmailParts) : go (bEmailParts * option error) :=
  match c with
  | CallSetUsername v => SetUsername v e
  | CallSetDomain v => SetDomain v e
  | CallSetDomainName v => SetDomainName v e
  | CallSetDomainTLD v => SetDomainTLD v e
  end.

Inductive constructed (e : bEmailParts) : Prop :=
| by_New (email : string) :
    New email = Return (Ok e) -> constructed e
| by_NewFromUsernameAndDomain (username domain : string) :
    NewFromUsernameAndDomain username domain = Return (Ok e) -> constructed e
| by_NewFromFullParts (username domainName domainTLD : string) :
    NewFromFullParts username domainName domainTLD = Return (Ok e) -> constructed e.

Inductive reachable : bEmailParts -> Prop :=
| reach_constructed (e : bEmailParts) : constructed e -> reachable e
| reach_call (e e' : bEmailParts) (c : call) (err : option error) :
    reachable e -> run c e = Return (e', err) -> reachable e'.

End bemailpart.

(** * Sanity checks on the scenarios of the test file *)

Example test_New_success :
  New "test.username@test-domain.com"
  = Return (Ok (mkEmailParts "test.username" "test-domain.com")).
Proof. reflexivity. Qed.

Example test_New_error :
  New "test.username@test-domain.c123123@#!@#" = Return (Err ErrInvalidEmailFormat).
Proof. reflexivity. Qed.

Example test_Split :
  strings.Split "a@b@@c" "@" = ["a"; "b"; ""; "c"]
  /\ strings.Split "ab" "@" = ["ab"]
  /\ strings.Split "a--b-c--" "--" = ["a"; "b-c"; ""]
  /\ strings.Split "" "@" = [""].
Proof. repeat split. Qed.

Example test_Index :
  strings.Index "b.co.id" "." = 1 /\ strings.Index "bcoid" "." = -1
  /\ strings.Index "" "." = -1 /\ strings.Index ".a" "." = 0.
Proof. repeat split. Qed.

Example test_patterns :
  MatchString usernameRegex "a!" = true
  /\ MatchString usernameRegex "!a" = false
  /\ MatchString usernameRegex "" = false
  /\ MatchString domainNameRegex "!@#@%$!@%" = false
  /\ MatchString domainNameRegex "!a!" = true
  /\ MatchString domainTLDRegex ".co.id" = true
  /\ MatchString domainTLDRegex "com1" = false
  /\ MatchString domainTLDRegex "1com" = true
  /\ MatchString domainRegex "!!test-domain.com" = true
  /\ MatchString domainRegex "test!@%@!-domain.!@#@!$@!" = false
  /\ MatchString domainRegex "b.co.id" = true
  /\ MatchString domainRegex ".com" = false
  /\ MatchString emailRegex "a@b.co.id" = true
  /\ MatchString emailRegex "a@b@c.com" = false
  /\ MatchString emailRegex " a@b.com" = false
  /\ MatchString emailRegex "a@b.com " = false.
Proof. repeat split. Qed.

(** The scenario of [TestBEmailParts]. *)
Example test_scenario :
  let e0 := mkEmailParts "test.username" "test-domain.com" in
  let e1 := mkEmailParts "test.update.username" "test-domain.com" in
  let e2 := mkEmailParts "test.update.username" "test-update-domain.com" in
  let e3 := mkEmailParts "test.update.username" "test-update-domain-name.com" in
  let e4 := mkEmailParts "test.update.username" "test-update-domain-name.co.id" in
  New "test.username@test-domain.com" = Return (Ok e0)
  /\ SetUsername "test.update.username" e0 = Return (e1, None)
  /\ SetDomain "test-update-domain.com" e1 = Return (e2, None)
  /\ SetDomainName "test-update-domain-name" e2 = Return (e3, None)
  /\ SetDomainTLD ".co.id" e3 = Return (e4, None)
  /\ DomainName e4 = Return "test-update-domain-name"
  /\ DomainTLD e4 = Return ".co.id"
  /\ DomainTLDWithoutDot e4 = Return "co.id"
  /\ SetUsername "!@#@%$!@%" e4 = Return (e4, Some ErrInvalidEmailUsernameFormat)
  /\ SetDomain "!@#@%$!@%" e4 = Return (e4, Some ErrInvalidEmailDomainFormat)
  /\ SetDomainName "!@#@%$!@%" e4 = Return (e4, Some ErrInvalidEmailDomainNameFormat)
  /\ SetDomainTLD "!@#@%$!@%" e4 = Return (e4, Some ErrInvalidEmailDomainTLDFormat).
Proof. repeat split. Qed.

(** * Properties *)

(** ** Strings *)

Lemma append_assoc (a b c : string) : (a ++ b) ++ c = a ++ (b ++ c).
Proof. induction a as [|x a IH]; simpl; [reflexivity | now rewrite IH]. Qed.

Lemma append_empty_r (a : string) : a ++ "" = a.
Proof. induction a as [|x a IH]; simpl; [reflexivity | now rewrite IH]. Qed.

Lemma take_append (n r : string) : strings.take (String.length n) (n ++ r) = n.
Proof. induction n as [|x n IH]; simpl; [now destruct r | now rewrite IH]. Qed.

Lemma drop_append (n r : string) : strings.drop (String.length n) (n ++ r) = r.
Proof. induction n as [|x n IH]; simpl; [reflexivity | exact IH]. Qed.

Lemma length_append (a b : string) :
  String.length (a ++ b) = (String.length a + String.length b)%nat.
Proof. induction a as [|x a IH]; simpl; [reflexivity | now rewrite IH]. Qed.

Section OneCharacterSeparator.

(** The separators of the program, ["@"] and ["."], are one character
    long: the lemmas on [strings.Index], [strings.Split] and
    [strings.HasPrefix] are stated for a separator [String c ""]. *)
Variable c : ascii.

Lemma occurs_append (a b : string) :
  occurs c (a ++ b) = occurs c a || occurs c b.
Proof.
  induction a as [|x a IH]; simpl; [reflexivity|].
  now rewrite IH, orb_assoc.
Qed.

(** A string in which [c] occurs splits at the first occurrence. *)
Lemma occurs_first (s : string) :
  occurs c s = true ->
  exists n w, s = n ++ String c w /\ occurs c n = false.
Proof.
  induction s as [|a s IH]; simpl; [discriminate|].
  destruct (Ascii.eqb_spec a c) as [->|Hne]; simpl.
  - intros _. now exists "", s.
  - intros H. destruct (IH H) as (n & w & -> & Hn).
    exists (String a n), w. split; [reflexivity|].
    simpl. rewrite Hn. now destruct (Ascii.eqb_spec a c).
Qed.

Lemma prefix_single (a : ascii) (s : string) :
  String.prefix (String c "") (String a s) = Ascii.eqb a c.
Proof.
  simpl. destruct (ascii_dec c a) as [->|Hne].
  - rewrite Ascii.eqb_refl. now destruct s.
  - symmetry. apply Ascii.eqb_neq. congruence.
Qed.

Lemma HasPrefix_single (s : string) :
  strings.HasPrefix s (String c "") = true -> exists s', s = String c s'.
Proof.
  unfold strings.HasPrefix. destruct s as [|a s]; [discriminate|].
  rewrite prefix_single. intros H. apply Ascii.eqb_eq in H. subst. now exists s.
Qed.

(** [strings.Index] finds the first occurrence of a one-character
    separator, and answers [-1] when there is none. *)
Lemma Index_from_first (n w : string) (i : Z) :
  occurs c n = false ->
  strings.Index_from i (n ++ String c w) (String c "") = i + Z.of_nat (String.length n).
Proof.
  revert i. induction n as [|a n IH]; intros i Hn.
  - cbn [append strings.Index_from]. rewrite prefix_single, Ascii.eqb_refl.
    simpl. lia.
  - simpl in Hn. apply orb_false_elim in Hn as [Ha Hn].
    cbn [append strings.Index_from]. rewrite prefix_single, Ha.
    rewrite IH by assumption. cbn [String.length]. lia.
Qed.

Lemma Index_from_absent (s : string) (i : Z) :
  occurs c s = false -> strings.Index_from i s (String c "") = -1.
Proof.
  revert i. induction s as [|a s IH]; intros i Hs; [reflexivity|].
  simpl in Hs. apply orb_false_elim in Hs as [Ha Hs].
  cbn [strings.Index_from]. rewrite prefix_single, Ha. now apply IH.
Qed.

(** [strings.Split] at a one-character separator. *)
Lemma Split_aux_absent (s : string) :
  occurs c s = false -> strings.Split_aux (String c "") 0 s = [s].
Proof.
  induction s as [|a s IH]; intros Hs; [reflexivity|].
  simpl in Hs. apply orb_false_elim in Hs as [Ha Hs].
  cbn [strings.Split_aux]. rewrite prefix_single, Ha, IH by assumption.
  reflexivity.
Qed.

Lemma Split_aux_first (n w : string) :
  occurs c n = false ->
  strings.Split_aux (String c "") 0 (n ++ String c w)
  = n :: strings.Split_aux (String c "") 0 w.
Proof.
  induction n as [|a n IH]; intros Hn.
  - cbn [append strings.Split_aux]. rewrite prefix_single, Ascii.eqb_refl.
    reflexivity.
  - simpl in Hn. apply orb_false_elim in Hn as [Ha Hn].
    cbn [append strings.Split_aux]. rewrite prefix_single, Ha, IH by assumption.
    reflexivity.
Qed.

End OneCharacterSeparator.

(** ** Matching *)

Lemma match_plus_cons (cls : class) (p : pattern) (bot : bool) (a : ascii) (s : string) :
  match_here (ClassPlus cls :: p) bot (String a s)
  = in_class cls a && (match_here p false s || match_here (ClassPlus cls :: p) false s).
Proof. reflexivity. Qed.

Lemma match_chr_cons (c : ascii) (p : pattern) (bot : bool) (a : ascii) (s : string) :
  match_here (Chr c :: p) bot (String a s) = Ascii.eqb a c && match_here p false s.
Proof. reflexivity. Qed.

(** A match of [[...]+] followed by [p] consumes a non-empty run of
    characters of the class and then matches [p]; and conversely. *)
Lemma match_plus_elim (cls : class) (p : pattern) (bot : bool) (s : string) :
  match_here (ClassPlus cls :: p) bot s = true ->
  exists u r, s = u ++ r /\ u <> "" /\ all_in cls u = true
              /\ match_here p false r = true.
Proof.
  revert bot. induction s as [|a s IH]; intros bot H; [discriminate|].
  rewrite match_plus_cons in H.
  apply andb_true_iff in H as [Ha H]. apply orb_true_iff in H as [H|H].
  - exists (String a ""), s. simpl. rewrite Ha. repeat split; [discriminate | exact H].
  - destruct (IH _ H) as (u & r & -> & _ & Hu & Hr).
    exists (String a u), r. simpl. rewrite Ha, Hu.
    repeat split; [discriminate | exact Hr].
Qed.

Lemma match_plus_intro (cls : class) (p : pattern) (bot : bool) (u r : string) :
  u <> "" -> all_in cls u = true -> match_here p false r = true ->
  match_here (ClassPlus cls :: p) bot (u ++ r) = true.
Proof.
  revert bot. induction u as [|a u IH]; intros bot Hne Hu Hr; [congruence|].
  simpl in Hu. apply andb_true_iff in Hu as [Ha Hu].
  cbn [append]. rewrite match_plus_cons, Ha. cbn [andb].
  destruct u as [|b u].
  - cbn [append]. now rewrite Hr.
  - rewrite (IH false) by (assumption || discriminate). apply orb_true_r.
Qed.

Lemma all_in_not_occurs (cls : class) (c : ascii) (s : string) :
  in_class cls c = false -> all_in cls s = true -> occurs c s = false.
Proof.
  intros Hc. induction s as [|a s IH]; simpl; [reflexivity|].
  intros H. apply andb_true_iff in H as [Ha Hs]. rewrite (IH Hs), orb_false_r.
  apply Ascii.eqb_neq. intros ->. congruence.
Qed.

(** A pattern that begins with [^] matches at the beginning of the text
    only. *)
Lemma search_Bol_later (p : pattern) (s : string) : search (Bol :: p) false s = false.
Proof. induction s as [|a s IH]; simpl; [reflexivity | exact IH]. Qed.

Lemma MatchString_Bol (p : pattern) (s : string) :
  MatchString (Bol :: p) s = match_here p true s.
Proof.
  unfold MatchString. destruct s as [|a s]; cbn [search].
  - cbn [match_here andb]. apply orb_false_r.
  - rewrite search_Bol_later. cbn [match_here andb]. apply orb_false_r.
Qed.

Lemma search_here (p : pattern) (bot : bool) (s : string) :
  match_here p bot s = true -> search p bot s = true.
Proof. intros H. destruct s; simpl; now rewrite H. Qed.

Lemma search_later (p : pattern) (bot : bool) (u s : string) :
  search p false s = true -> search p bot (u ++ s) = true.
Proof.
  intros H. revert bot. induction u as [|a u IH]; intros bot; cbn [append].
  - destruct bot; [|exact H]. destruct s as [|b s]; simpl in *.
    + rewrite orb_false_r in *. revert H. clear. revert p.
      induction p as [|[| |c|cls] p IH]; simpl; try discriminate; auto.
    + apply orb_true_iff in H as [H|H]; [|now rewrite H, orb_true_r].
      apply orb_true_iff. left. revert H. clear.
      destruct p as [|[| |c|cls] p]; simpl; try discriminate; auto.
  - cbn [search]. rewrite (IH false). apply orb_true_r.
Qed.

(** ** The three grammars *)

Lemma emailRegex_items :
  emailRegex = Bol :: ClassPlus usernameChars :: Chr "@" :: domainRegex.
Proof. reflexivity. Qed.

Lemma domainRegex_items :
  domainRegex = [ClassPlus domainNameChars; Chr "."; ClassPlus alpha; Eol].
Proof. reflexivity. Qed.

Lemma domain_here_elim (bot : bool) (s : string) :
  match_here domainRegex bot s = true -> domain_shape s.
Proof.
  rewrite domainRegex_items. intros H.
  apply match_plus_elim in H as (d & r & -> & Hd & Hdc & H).
  destruct r as [|a r]; [discriminate|]. rewrite match_chr_cons in H.
  apply andb_true_iff in H as [Ha H]. apply Ascii.eqb_eq in Ha. subst a.
  apply match_plus_elim in H as (t & r' & -> & Ht & Htc & H).
  destruct r' as [|b r']; [|discriminate]. rewrite append_empty_r.
  now exists d, t.
Qed.

Lemma domain_here_intro (bot : bool) (s : string) :
  domain_shape s -> match_here domainRegex bot s = true.
Proof.
  intros (d & t & -> & Hd & Hdc & Ht & Htc). rewrite domainRegex_items.
  apply match_plus_intro; [assumption..|].
  cbn [append]. rewrite match_chr_cons, Ascii.eqb_refl. cbn [andb].
  rewrite <- (append_empty_r t). now apply match_plus_intro.
Qed.

Lemma domain_shape_occurs (dom : string) : domain_shape dom -> occurs "." dom = true.
Proof.
  intros (d & t & -> & _). rewrite occurs_append. simpl. apply orb_true_r.
Qed.

Lemma domain_shape_no_at (dom : string) : domain_shape dom -> occurs "@" dom = false.
Proof.
  intros (d & t & -> & _ & Hd & _ & Ht). rewrite !occurs_append.
  rewrite (all_in_not_occurs domainNameChars "@" d) by (reflexivity || assumption).
  rewrite (all_in_not_occurs alpha "@" t) by (reflexivity || assumption).
  reflexivity.
Qed.

(** The full pattern is anchored at both ends: it matches exactly the
    strings [u ++ "@" ++ dom] of the e-mail shape. *)
Lemma emailRegex_elim (s : string) :
  MatchString emailRegex s = true ->
  exists u dom, s = u ++ "@" ++ dom /\ email_shape u dom.
Proof.
  rewrite emailRegex_items, MatchString_Bol. intros H.
  apply match_plus_elim in H as (u & r & -> & Hu & Huc & H).
  destruct r as [|a r]; [discriminate|]. rewrite match_chr_cons in H.
  apply andb_true_iff in H as [Ha H]. apply Ascii.eqb_eq in Ha. subst a.
  apply domain_here_elim in H. exists u, r. repeat split; assumption.
Qed.

Lemma emailRegex_intro (u dom : string) :
  email_shape u dom -> MatchString emailRegex (u ++ "@" ++ dom) = true.
Proof.
  intros (Hu & Huc & Hdom). rewrite emailRegex_items, MatchString_Bol.
  apply match_plus_intro; [assumption..|].
  cbn [append]. rewrite match_chr_cons, Ascii.eqb_refl. cbn [andb].
  now apply domain_here_intro.
Qed.

(** The domain pattern is not anchored at the beginning: it matches
    the strings that end with a domain shape. *)
Lemma domainRegex_elim (bot : bool) (s : string) :
  search domainRegex bot s = true -> exists pre dom, s = pre ++ dom /\ domain_shape dom.
Proof.
  revert bot. induction s as [|a s IH]; intros bot H; cbn [search] in H.
  - rewrite orb_false_r in H. exists "", "". split; [reflexivity|].
    now apply domain_here_elim in H.
  - apply orb_true_iff in H as [H|H].
    + exists "", (String a s). split; [reflexivity|]. now apply domain_here_elim in H.
    + destruct (IH _ H) as (pre & dom & -> & Hdom). now exists (String a pre), dom.
Qed.

Lemma domainRegex_occurs (s : string) :
  MatchString domainRegex s = true -> occurs "." s = true.
Proof.
  intros H. apply domainRegex_elim in H as (pre & dom & -> & Hdom).
  rewrite occurs_append, (domain_shape_occurs _ Hdom). apply orb_true_r.
Qed.

Lemma domainRegex_intro (pre dom : string) :
  domain_shape dom -> MatchString domainRegex (pre ++ dom) = true.
Proof.
  intros H. apply search_later, search_here. now apply domain_here_intro.
Qed.

Lemma usernameRegex_intro (u : string) :
  u <> "" -> all_in usernameChars u = true -> MatchString usernameRegex u = true.
Proof.
  intros Hu Huc. unfold usernameRegex, MustCompile, usernamePattern.
  rewrite MatchString_Bol, <- (append_empty_r u). now apply match_plus_intro.
Qed.

(** ** Constructors *)

(** [New] on a string the full pattern accepts: the string has exactly one
    [@], and the two pieces of the split are stored. *)
Lemma New_accepts (s : string) :
  MatchString emailRegex s = true ->
  exists u dom, s = u ++ "@" ++ dom /\ email_shape u dom
                /\ New s = Return (Ok (mkEmailParts u dom)).
Proof.
  intros H. destruct (emailRegex_elim s H) as (u & dom & -> & Hshape).
  exists u, dom. split; [reflexivity|]. split; [assumption|].
  unfold New. rewrite H. cbn [negb].
  destruct Hshape as (_ & Huc & Hdom).
  unfold strings.Split, emailSeparator. cbn [append].
  rewrite Split_aux_first
    by (apply (all_in_not_occurs usernameChars); [reflexivity | assumption]).
  rewrite Split_aux_absent by now apply domain_shape_no_at.
  reflexivity.
Qed.

Lemma New_rejects (s : string) :
  MatchString emailRegex s = false -> New s = Return (Err ErrInvalidEmailFormat).
Proof. intros H. unfold New. now rewrite H. Qed.

(** What the three constructors return when they succeed. *)
Lemma New_Ok (s : string) (e : bEmailParts) :
  New s = Return (Ok e) ->
  s = username e ++ "@" ++ domain e /\ email_shape (username e) (domain e).
Proof.
  destruct (MatchString emailRegex s) eqn:H.
  - destruct (New_accepts s H) as (u & dom & Hs & Hshape & ->).
    intros [= <-]. now split.
  - rewrite (New_rejects s H). discriminate.
Qed.

Lemma NewFromUsernameAndDomain_Ok (u dom : string) (e : bEmailParts) :
  NewFromUsernameAndDomain u dom = Return (Ok e) ->
  email_shape (username e) (domain e).
Proof.
  unfold NewFromUsernameAndDomain.
  destruct (negb (MatchString usernameRegex u)); [discriminate|].
  destruct (negb (MatchString domainRegex dom)); [discriminate|].
  intros H. now apply New_Ok in H.
Qed.

Lemma NewFromFullParts_Ok (u name tld : string) (e : bEmailParts) :
  NewFromFullParts u name tld = Return (Ok e) ->
  email_shape (username e) (domain e).
Proof.
  unfold NewFromFullParts.
  destruct (negb (MatchString domainNameRegex name)); [discriminate|].
  destruct (negb (MatchString domainTLDRegex tld)); [discriminate|].
  apply NewFromUsernameAndDomain_Ok.
Qed.

(** No constructor panics. *)
Lemma New_total (s : string) : New s <> Panic.
Proof.
  destruct (MatchString emailRegex s) eqn:H.
  - destruct (New_accepts s H) as (u & dom & _ & _ & ->). discriminate.
  - rewrite (New_rejects s H). discriminate.
Qed.

(** ** Accessors *)

(** When the domain has a dot, the accessors split it at the first one. *)
Lemma accessors_first_dot (e : bEmailParts) (n w : string) :
  domain e = n ++ "." ++ w -> occurs "." n = false ->
  strings.Index (domain e) domainSeparator = Z.of_nat (String.length n)
  /\ DomainName e = Return n
  /\ DomainTLD e = Return ("." ++ w)
  /\ DomainTLDWithoutDot e = Return w.
Proof.
  intros Hdom Hn.
  assert (Hi : strings.Index (domain e) domainSeparator = Z.of_nat (String.length n)).
  { unfold strings.Index, domainSeparator. rewrite Hdom. cbn [append].
    now rewrite Index_from_first. }
  assert (Hin : (0 <=? Z.of_nat (String.length n))
                && (Z.of_nat (String.length n) <=? Z.of_nat (String.length (domain e)))
                = true).
  { rewrite Hdom, length_append. apply andb_true_iff. split; apply Z.leb_le; lia. }
  assert (Htld : DomainTLD e = Return ("." ++ w)).
  { unfold DomainTLD, slice_from. rewrite Hi, Hin, Nat2Z.id, Hdom.
    now rewrite drop_append. }
  split; [exact Hi|]. split; [|split; [exact Htld|]].
  - unfold DomainName, slice_to. rewrite Hi, Hin, Nat2Z.id, Hdom.
    now rewrite take_append.
  - unfold DomainTLDWithoutDot. rewrite Htld. cbn [bind append].
    unfold strings.TrimPrefix, strings.HasPrefix, domainSeparator.
    now rewrite prefix_single.
Qed.

(** Without a dot, [strings.Index] answers [-1] and the slice expressions
    of [DomainName] and [DomainTLD] panic. *)
Lemma accessors_no_dot (e : bEmailParts) :
  occurs "." (domain e) = false ->
  DomainName e = Panic /\ DomainTLD e = Panic /\ DomainTLDWithoutDot e = Panic.
Proof.
  intros H.
  assert (Hi : strings.Index (domain e) domainSeparator = -1)
    by now apply Index_from_absent.
  unfold DomainTLDWithoutDot, DomainName, DomainTLD, slice_to, slice_from.
  rewrite Hi. repeat split.
Qed.

(** ** Setters and reachable instances *)

Lemma generateDomain_eq (name tld : string) :
  generateDomain name tld
  = name ++ (if strings.HasPrefix tld "." then tld else "." ++ tld).
Proof.
  unfold generateDomain, domainSeparator. now destruct (strings.HasPrefix tld ".").
Qed.

Lemma generateDomain_occurs (name tld : string) :
  occurs "." (generateDomain name tld) = true.
Proof.
  rewrite generateDomain_eq, occurs_append.
  destruct (strings.HasPrefix tld ".") eqn:H.
  - apply HasPrefix_single in H as (t & ->). simpl. apply orb_true_r.
  - simpl. apply orb_true_r.
Qed.

Lemma constructed_shape (e : bEmailParts) :
  constructed e -> email_shape (username e) (domain e).
Proof.
  intros [s H|u d H|u n t H].
  - now apply New_Ok in H.
  - now apply NewFromUsernameAndDomain_Ok in H.
  - now apply NewFromFullParts_Ok in H.
Qed.

(** What the constructors establish: the three grammars hold. *)
Lemma constructed_valid (e : bEmailParts) :
  constructed e ->
  MatchString usernameRegex (username e) = true
  /\ MatchString domainRegex (domain e) = true
  /\ MatchString emailRegex (Email e) = true.
Proof.
  intros H. apply constructed_shape in H. pose proof H as (Hu & Huc & Hdom).
  split; [now apply usernameRegex_intro|]. split.
  - now apply (domainRegex_intro "").
  - now apply emailRegex_intro.
Qed.

(** Every setter keeps a dot in the domain and runs without panic when
    there is one. *)
Lemma run_keeps_dot (c : call) (e : bEmailParts) :
  occurs "." (domain e) = true ->
  exists e' err, run c e = Return (e', err) /\ occurs "." (domain e') = true.
Proof.
  intros Hdot.
  destruct (occurs_first _ _ Hdot) as (n & w & Hdom & Hn).
  destruct (accessors_first_dot e n w Hdom Hn) as (_ & Hname & Htld & _).
  destruct c as [v|v|v|v]; cbn [run].
  - unfold SetUsername. destruct (negb _); eauto.
  - unfold SetDomain. destruct (MatchString domainRegex v) eqn:Hv; cbn [negb]; eauto.
    eexists _, _. split; [reflexivity|]. now apply domainRegex_occurs.
  - unfold SetDomainName. destruct (negb _); eauto.
    rewrite Htld. eexists _, _. split; [reflexivity|]. apply generateDomain_occurs.
  - unfold SetDomainTLD. destruct (negb _); eauto.
    rewrite Hname. eexists _, _. split; [reflexivity|]. apply generateDomain_occurs.
Qed.

Lemma reachable_dot (e : bEmailParts) : reachable e -> occurs "." (domain e) = true.
Proof.
  induction 1 as [e H|e e' c err _ IH Hrun].
  - apply constructed_shape in H as (_ & _ & Hdom). now apply domain_shape_occurs.
  - destruct (run_keeps_dot c e IH) as (e2 & err2 & Hrun2 & Hdot).
    rewrite Hrun in Hrun2. now injection Hrun2 as <- _.
Qed.

(** A setter call that returned: either the receiver is as before, or the
    call stored a new field. *)
Ltac returned H :=
  repeat match type of H with
         | (if negb ?b then _ else _) = _ =>
             let E := fresh "Hv" in destruct b eqn:E; cbn [negb] in H
         | bind ?m _ = _ => destruct m; cbn [bind] in H; [|discriminate H]
         end;
  injection H as <- _.

(** The username of a reachable instance still matches the pattern of
    usernames, which looks at its first character only. *)
Lemma reachable_username (e : bEmailParts) :
  reachable e -> MatchString usernameRegex (username e) = true.
Proof.
  induction 1 as [e H|e e' c err _ IH Hrun].
  - now apply constructed_valid in H.
  - destruct c as [v|v|v|v]; cbn [run] in Hrun;
      unfold SetUsername, SetDomain, SetDomainName, SetDomainTLD in Hrun;
      returned Hrun; assumption.
Qed.

Lemma unchanged_intro (e : bEmailParts) (err : error) :
  unchanged e (Return (e, Some err)) err.
Proof. exists e. repeat split. Qed.

(** * The claims *)

(** C1 (the code departs from it).  The invariant asks that after any
    sequence of setter calls the stored domain matches the domain pattern
    and that [username ++ "@" ++ domain] matches the full pattern.  On the
    instance built from ["a@b.com"] the setters accept ["a!"] as a username,
    ["b@"] as a domain name, ["1a"] as a TLD and ["!b.com"] as a domain; the
    instances they leave behind have an e-mail the full pattern rejects, one
    that [New] and [NewFromUsernameAndDomain] refuse, and after
    [SetDomainName] and [SetDomainTLD] a domain the domain pattern
    rejects. *)
Theorem setters_break_grammar_invariant :
  let e0 := mkEmailParts "a" "b.com" in
  New "a@b.com" = Return (Ok e0)
  /\ (SetUsername "a!" e0 = Return (mkEmailParts "a!" "b.com", None)
      /\ Email (mkEmailParts "a!" "b.com") = "a!@b.com"
      /\ MatchString emailRegex "a!@b.com" = false
      /\ New "a!@b.com" = Return (Err ErrInvalidEmailFormat)
      /\ NewFromUsernameAndDomain "a!" "b.com" = Return (Err ErrInvalidEmailFormat))
  /\ (SetDomainName "b@" e0 = Return (mkEmailParts "a" "b@.com", None)
      /\ MatchString domainRegex "b@.com" = false
      /\ MatchString emailRegex (Email (mkEmailParts "a" "b@.com")) = false)
  /\ (SetDomainTLD "1a" e0 = Return (mkEmailParts "a" "b.1a", None)
      /\ MatchString domainRegex "b.1a" = false
      /\ MatchString emailRegex (Email (mkEmailParts "a" "b.1a")) = false)
  /\ (SetDomain "!b.com" e0 = Return (mkEmailParts "a" "!b.com", None)
      /\ MatchString emailRegex (Email (mkEmailParts "a" "!b.com")) = false).
Proof. cbv zeta. repeat split. Qed.

(** C2.  Round trip: on every string [s] that the full e-mail pattern
    matches, [New s] succeeds and the instance it returns has
    [Email() = s]. *)
Theorem New_Email_roundtrip (s : string) :
  MatchString emailRegex s = true ->
  exists e, New s = Return (Ok e) /\ Email e = s.
Proof.
  intros H. destruct (New_accepts s H) as (u & dom & -> & _ & Hnew).
  exists (mkEmailParts u dom). split; [exact Hnew | reflexivity].
Qed.

Lemma New_Email_roundtrip_witness :
  MatchString emailRegex "john.doe@example.com" = true
  /\ exists e, New "john.doe@example.com" = Return (Ok e)
               /\ Email e = "john.doe@example.com".
Proof.
  split; [reflexivity | apply (New_Email_roundtrip "john.doe@example.com"); reflexivity].
Defined.

(** C3.  Setter atomicity: for every instance [e] and every value [v] that
    a setter's pattern does not match, the setter returns its own error and
    the receiver is unchanged, all six accessors answering as before. *)
Theorem setter_atomicity (e : bEmailParts) (v : string) :
  (MatchString usernameRegex v = false ->
   unchanged e (SetUsername v e) ErrInvalidEmailUsernameFormat)
  /\ (MatchString domainRegex v = false ->
      unchanged e (SetDomain v e) ErrInvalidEmailDomainFormat)
  /\ (MatchString domainNameRegex v = false ->
      unchanged e (SetDomainName v e) ErrInvalidEmailDomainNameFormat)
  /\ (MatchString domainTLDRegex v = false ->
      unchanged e (SetDomainTLD v e) ErrInvalidEmailDomainTLDFormat).
Proof.
  unfold SetUsername, SetDomain, SetDomainName, SetDomainTLD.
  repeat split; intros ->; apply unchanged_intro.
Qed.

Lemma setter_atomicity_witness :
  let e := mkEmailParts "test.username" "test-domain.com" in
  let v := "!@#@%$!@%" in
  (MatchString usernameRegex v = false /\ MatchString domainRegex v = false
   /\ MatchString domainNameRegex v = false /\ MatchString domainTLDRegex v = false)
  /\ unchanged e (SetUsername v e) ErrInvalidEmailUsernameFormat
  /\ unchanged e (SetDomain v e) ErrInvalidEmailDomainFormat
  /\ unchanged e (SetDomainName v e) ErrInvalidEmailDomainNameFormat
  /\ unchanged e (SetDomainTLD v e) ErrInvalidEmailDomainTLDFormat.
Proof.
  intros e v. split; [repeat split|].
  destruct (setter_atomicity e v) as (H1 & H2 & H3 & H4).
  split; [apply H1; reflexivity|]. split; [apply H2; reflexivity|].
  split; [apply H3; reflexivity | apply H4; reflexivity].
Defined.

Lemma decomposes_of_dot (e : bEmailParts) :
  occurs "." (domain e) = true -> decomposes e.
Proof.
  intros Hdot. destruct (occurs_first _ _ Hdot) as (n & w & Hdom & Hn).
  destruct (accessors_first_dot e n w Hdom Hn) as (_ & Hname & Htld & Hw).
  exists n, ("." ++ w), w. unfold Domain.
  repeat split; try assumption. now exists w.
Qed.

(** C4.  Decomposition consistency: for every valid instance (one that is
    reachable through the constructors and setters, or one whose domain the
    domain pattern matches) [DomainName()] is the domain up to its first
    ['.'], [DomainTLD()] the domain from that ['.'] on, and
    [Email() = Username() + "@" + Domain()],
    [Domain() = DomainName() + DomainTLD()],
    [DomainTLD() = "." + DomainTLDWithoutDot()]; and on ["a@b.co.id"] the
    three accessors give ["b"], [".co.id"] and ["co.id"]. *)
Theorem decomposition_consistency :
  (forall e : bEmailParts,
      reachable e \/ MatchString domainRegex (domain e) = true -> decomposes e)
  /\ (exists e, New "a@b.co.id" = Return (Ok e)
                /\ DomainName e = Return "b"
                /\ DomainTLD e = Return ".co.id"
                /\ DomainTLDWithoutDot e = Return "co.id").
Proof.
  split.
  - intros e [H|H]; apply decomposes_of_dot.
    + now apply reachable_dot.
    + now apply domainRegex_occurs.
  - exists (mkEmailParts "a" "b.co.id"). repeat split.
Qed.

Lemma decomposition_consistency_witness :
  let e := mkEmailParts "a" "b.co.id" in
  (reachable e \/ MatchString domainRegex (domain e) = true) /\ decomposes e.
Proof.
  intros e.
  assert (H : reachable e \/ MatchString domainRegex (domain e) = true).
  { left. apply reach_constructed, (by_New e "a@b.co.id"). reflexivity. }
  split; [exact H | exact (proj1 decomposition_consistency e H)].
Defined.

(** C5.  [New] fails with [ErrInvalidEmailFormat] on the empty string, on
    ["plainstring"] and on ["a@b"]. *)
Theorem New_rejections :
  New "" = Return (Err ErrInvalidEmailFormat)
  /\ New "plainstring" = Return (Err ErrInvalidEmailFormat)
  /\ New "a@b" = Return (Err ErrInvalidEmailFormat).
Proof. repeat split. Qed.

(** C6.  [NewFromFullParts] builds the domain from the name and the TLD
    with a ['.'] put before the TLD exactly when the TLD does not start
    with one, and hands it to [NewFromUsernameAndDomain]; with ["com"] and
    with [".com"] it succeeds and the e-mail is ["u@example.com"]. *)
Theorem NewFromFullParts_normalizes_TLD :
  (forall u name tld : string,
      MatchString domainNameRegex name = true ->
      MatchString domainTLDRegex tld = true ->
      (strings.HasPrefix tld "." = true ->
       NewFromFullParts u name tld = NewFromUsernameAndDomain u (name ++ tld))
      /\ (strings.HasPrefix tld "." = false ->
          NewFromFullParts u name tld
          = NewFromUsernameAndDomain u (name ++ "." ++ tld)))
  /\ (exists e, NewFromFullParts "u" "example" "com" = Return (Ok e)
                /\ Email e = "u@example.com")
  /\ (exists e, NewFromFullParts "u" "example" ".com" = Return (Ok e)
                /\ Email e = "u@example.com").
Proof.
  split; [|split].
  - intros u name tld Hn Ht. unfold NewFromFullParts. rewrite Hn, Ht. cbn [negb].
    rewrite generateDomain_eq. split; intros ->; reflexivity.
  - exists (mkEmailParts "u" "example.com"). split; reflexivity.
  - exists (mkEmailParts "u" "example.com"). split; reflexivity.
Qed.

Lemma NewFromFullParts_normalizes_TLD_witness :
  (MatchString domainNameRegex "example" = true
   /\ MatchString domainTLDRegex "com" = true
   /\ strings.HasPrefix "com" "." = false
   /\ MatchString domainTLDRegex ".com" = true
   /\ strings.HasPrefix ".com" "." = true)
  /\ NewFromFullParts "u" "example" "com"
     = NewFromUsernameAndDomain "u" ("example" ++ "." ++ "com")
  /\ NewFromFullParts "u" "example" ".com"
     = NewFromUsernameAndDomain "u" ("example" ++ ".com").
Proof.
  split; [repeat split|]. split.
  - apply (proj1 NewFromFullParts_normalizes_TLD "u" "example" "com");
      reflexivity.
  - apply (proj1 NewFromFullParts_normalizes_TLD "u" "example" ".com");
      reflexivity.
Defined.

(** C7.  [SetDomainTLD(v)] returns [ErrInvalidEmailDomainTLDFormat] and
    changes nothing when the TLD pattern does not match [v]; otherwise, on a
    reachable instance, the domain becomes the current [DomainName()]
    followed by [v], with a ['.'] put before [v] when it does not start
    with one.  On the instance of ["test.username@test-domain.com"],
    [SetDomainTLD(".co.id")] succeeds and the e-mail becomes
    ["test.username@test-domain.co.id"]. *)
Theorem SetDomainTLD_spec :
  (forall (e : bEmailParts) (v : string),
      MatchString domainTLDRegex v = false ->
      SetDomainTLD v e = Return (e, Some ErrInvalidEmailDomainTLDFormat))
  /\ (forall (e : bEmailParts) (v : string),
         reachable e -> MatchString domainTLDRegex v = true ->
         exists name,
           DomainName e = Return name
           /\ SetDomainTLD v e
              = Return (mkEmailParts (username e)
                          (name ++ (if strings.HasPrefix v "." then v else "." ++ v)),
                        None))
  /\ (exists e e',
         New "test.username@test-domain.com" = Return (Ok e)
         /\ SetDomainTLD ".co.id" e = Return (e', None)
         /\ Email e' = "test.username@test-domain.co.id").
Proof.
  split; [|split].
  - intros e v Hv. unfold SetDomainTLD. now rewrite Hv.
  - intros e v He Hv.
    destruct (decomposes_of_dot e (reachable_dot e He)) as (name & tld & _ & Hname & _).
    exists name. split; [exact Hname|].
    unfold SetDomainTLD. rewrite Hv, Hname. cbn [negb bind].
    now rewrite generateDomain_eq.
  - exists (mkEmailParts "test.username" "test-domain.com"),
           (mkEmailParts "test.username" "test-domain.co.id").
    repeat split.
Qed.

Lemma SetDomainTLD_spec_witness :
  let e := mkEmailParts "test.username" "test-domain.com" in
  (MatchString domainTLDRegex "!@#@%$!@%" = false
   /\ SetDomainTLD "!@#@%$!@%" e = Return (e, Some ErrInvalidEmailDomainTLDFormat))
  /\ (reachable e /\ MatchString domainTLDRegex "org" = true)
  /\ exists name,
       DomainName e = Return name
       /\ SetDomainTLD "org" e
          = Return (mkEmailParts (username e)
                      (name ++ (if strings.HasPrefix "org" "." then "org" else "." ++ "org")),
                    None).
Proof.
  intros e.
  assert (He : reachable e).
  { apply reach_constructed, (by_New e "test.username@test-domain.com"). reflexivity. }
  split; [split; [reflexivity|]|split; [split; [exact He | reflexivity]|]].
  - exact (proj1 SetDomainTLD_spec e "!@#@%$!@%" eq_refl).
  - exact (proj1 (proj2 SetDomainTLD_spec) e "org" He eq_refl).
Defined.

(** C8.  [SetDomainName(v)] returns [ErrInvalidEmailDomainNameFormat] and
    changes nothing when the domain-name pattern does not match [v];
    otherwise, on a reachable instance, the domain becomes [v] followed by
    the current [DomainTLD()], which starts with its dot and is kept as it
    is, and the username is not touched.  When [v] has no dot of its own,
    [DomainName()] is afterwards [v] and [DomainTLD()] is what it was. *)
Theorem SetDomainName_spec :
  (forall (e : bEmailParts) (v : string),
      MatchString domainNameRegex v = false ->
      SetDomainName v e = Return (e, Some ErrInvalidEmailDomainNameFormat))
  /\ (forall (e : bEmailParts) (v : string),
         reachable e -> MatchString domainNameRegex v = true ->
         exists tld e',
           DomainTLD e = Return tld
           /\ strings.HasPrefix tld "." = true
           /\ SetDomainName v e = Return (e', None)
           /\ Domain e' = v ++ tld
           /\ Username e' = Username e
           /\ (occurs "." v = false ->
               DomainName e' = Return v /\ DomainTLD e' = Return tld)).
Proof.
  split.
  - intros e v Hv. unfold SetDomainName. now rewrite Hv.
  - intros e v He Hv.
    destruct (occurs_first _ _ (reachable_dot e He)) as (n & w & Hdom & Hn).
    destruct (accessors_first_dot e n w Hdom Hn) as (_ & _ & Htld & _).
    exists ("." ++ w), (mkEmailParts (username e) (v ++ "." ++ w)).
    split; [exact Htld|]. split; [cbn [append]; apply prefix_single|].
    split; [|split; [reflexivity|split; [reflexivity|]]].
    + unfold SetDomainName. rewrite Hv, Htld. cbn [negb bind].
      rewrite generateDomain_eq. cbn [append].
      unfold strings.HasPrefix. now rewrite prefix_single.
    + intros Hv'.
      destruct (accessors_first_dot (mkEmailParts (username e) (v ++ "." ++ w)) v w
                  eq_refl Hv') as (_ & Hname' & Htld' & _).
      now split.
Qed.

Lemma SetDomainName_spec_witness :
  let e := mkEmailParts "john.doe" "example.co.id" in
  (MatchString domainNameRegex "!@#@%$!@%" = false
   /\ SetDomainName "!@#@%$!@%" e = Return (e, Some ErrInvalidEmailDomainNameFormat))
  /\ (reachable e /\ MatchString domainNameRegex "newexample" = true)
  /\ exists tld e',
       DomainTLD e = Return tld
       /\ strings.HasPrefix tld "." = true
       /\ SetDomainName "newexample" e = Return (e', None)
       /\ Domain e' = "newexample" ++ tld
       /\ Username e' = Username e
       /\ (occurs "." "newexample" = false ->
           DomainName e' = Return "newexample" /\ DomainTLD e' = Return tld).
Proof.
  intros e.
  assert (He : reachable e).
  { apply reach_constructed, (by_New e "john.doe@example.co.id"). reflexivity. }
  split; [split; [reflexivity|]|split; [split; [exact He | reflexivity]|]].
  - exact (proj1 SetDomainName_spec e "!@#@%$!@%" eq_refl).
  - exact (proj2 SetDomainName_spec e "newexample" He eq_refl).
Defined.

(** C9.  On every instance reached by a successful constructor call and
    any sequence of setter calls, accepted or rejected, the stored domain
    contains a ['.']: [strings.Index] finds it inside the domain, the slice
    expressions of [DomainName()] and [DomainTLD()] are in range, the three
    derived accessors return, and no further setter call panics. *)
Theorem reachable_domain_has_dot (e : bEmailParts) :
  reachable e ->
  occurs "." (domain e) = true
  /\ 0 <= strings.Index (domain e) domainSeparator
       < Z.of_nat (String.length (domain e))
  /\ (exists name tld tldw,
         DomainName e = Return name
         /\ DomainTLD e = Return tld
         /\ DomainTLDWithoutDot e = Return tldw)
  /\ (forall c : call, exists e' err, run c e = Return (e', err)).
Proof.
  intros He. pose proof (reachable_dot e He) as Hdot.
  destruct (occurs_first _ _ Hdot) as (n & w & Hdom & Hn).
  destruct (accessors_first_dot e n w Hdom Hn) as (Hi & Hname & Htld & Hw).
  split; [exact Hdot|]. split; [|split].
  - rewrite Hi, Hdom, length_append. cbn [String.length]. lia.
  - now exists n, ("." ++ w), w.
  - intros c. destruct (run_keeps_dot c e Hdot) as (e' & err & Hrun & _).
    now exists e', err.
Qed.

Lemma reachable_domain_has_dot_witness :
  let e := mkEmailParts "a!" "x.1a" in
  reachable e
  /\ occurs "." (domain e) = true
  /\ 0 <= strings.Index (domain e) domainSeparator
       < Z.of_nat (String.length (domain e))
  /\ (exists name tld tldw,
         DomainName e = Return name
         /\ DomainTLD e = Return tld
         /\ DomainTLDWithoutDot e = Return tldw)
  /\ (forall c : call, exists e' err, run c e = Return (e', err)).
Proof.
  intros e.
  assert (He : reachable e).
  { apply (reach_call (mkEmailParts "a!" "x.com") e (CallSetDomainTLD "1a") None);
      [|reflexivity].
    apply (reach_call (mkEmailParts "a!" "b.com") _ (CallSetDomainName "x") None);
      [|reflexivity].
    apply (reach_call (mkEmailParts "a" "b.com") _ (CallSetUsername "a!") None);
      [|reflexivity].
    apply (reach_call (mkEmailParts "a" "b.com") _ (CallSetDomain "nodot")
             (Some ErrInvalidEmailDomainFormat)); [|reflexivity].
    apply reach_constructed, (by_New _ "a@b.com"). reflexivity. }
  split; [exact He | exact (reachable_domain_has_dot e He)].
Defined.

(** C10.  [NewFromUsernameAndDomain("a!", "b.com")]: the username pattern,
    anchored at the start only, matches ["a!"], the domain pattern matches
    ["b.com"], but the full pattern rejects ["a!@b.com"], and the error
    returned is [ErrInvalidEmailFormat], not
    [ErrInvalidEmailUsernameFormat]. *)
Theorem part_checks_pass_full_check_fails :
  MatchString usernameRegex "a!" = true
  /\ MatchString domainRegex "b.com" = true
  /\ generateEmail "a!" "b.com" = "a!@b.com"
  /\ MatchString emailRegex "a!@b.com" = false
  /\ NewFromUsernameAndDomain "a!" "b.com" = Return (Err ErrInvalidEmailFormat)
  /\ NewFromUsernameAndDomain "a!" "b.com"
     <> Return (Err ErrInvalidEmailUsernameFormat).
Proof. repeat split. discriminate. Qed.

(** * Further properties of the code *)

(** ** What each pattern accepts *)

Lemma usernameRegex_elim (s : string) :
  MatchString usernameRegex s = true ->
  exists c r, s = String c r /\ in_class usernameChars c = true.
Proof.
  unfold usernameRegex, MustCompile, usernamePattern. rewrite MatchString_Bol.
  intros H. apply match_plus_elim in H as (u & r & -> & Hu & Huc & _).
  destruct u as [|c u]; [congruence|]. simpl in Huc.
  apply andb_true_iff in Huc as [Hc _]. now exists c, (u ++ r).
Qed.

(** The username pattern is anchored at the start only: [MatchString]
    looks at the first character of the value and at nothing else. *)
Theorem usernameRegex_first_character (s : string) :
  MatchString usernameRegex s
  = match s with
    | EmptyString => false
    | String c _ => in_class usernameChars c
    end.
Proof.
  unfold usernameRegex, MustCompile, usernamePattern. rewrite MatchString_Bol.
  destruct s as [|c r]; [reflexivity|].
  rewrite match_plus_cons. cbn [match_here orb]. apply andb_true_r.
Qed.

Lemma search_class_any (cls : class) (bot : bool) (s : string) :
  search [ClassPlus cls] bot s = any_in cls s.
Proof.
  revert bot. induction s as [|a s IH]; intros bot; [reflexivity|].
  cbn [search any_in]. rewrite match_plus_cons, IH. cbn [match_here orb].
  now rewrite andb_true_r.
Qed.

(** The domain-name pattern has no anchor: [MatchString] accepts every
    value in which a letter, a digit, a dot or a hyphen occurs somewhere. *)
Theorem domainNameRegex_some_character (s : string) :
  MatchString domainNameRegex s = any_in domainNameChars s.
Proof. apply search_class_any. Qed.

Lemma search_class_Eol_last (cls : class) (bot : bool) (s : string) :
  search [ClassPlus cls; Eol] bot s = last_in cls s.
Proof.
  revert bot. induction s as [|a s IH]; intros bot; [reflexivity|].
  cbn [search last_in]. rewrite match_plus_cons, IH.
  destruct s as [|b s].
  - cbn. now rewrite andb_true_r, orb_false_r.
  - rewrite <- (IH false).
    change (match_here [Eol] false (String b s)) with false. cbn [orb].
    destruct (match_here [ClassPlus cls; Eol] false (String b s)) eqn:H.
    + rewrite (search_here _ _ _ H). apply orb_true_r.
    + now rewrite andb_false_r.
Qed.

(** The TLD pattern, as the search it runs. *)
Lemma domainTLDRegex_search (s : string) :
  MatchString domainTLDRegex s = search [ClassPlus alpha; Eol] true s.
Proof. reflexivity. Qed.

(** The TLD pattern is anchored at the end only: [MatchString] accepts
    exactly the values whose last character is a letter. *)
Theorem domainTLDRegex_last_character (s : string) :
  MatchString domainTLDRegex s = last_in alpha s.
Proof. rewrite domainTLDRegex_search. apply search_class_Eol_last. Qed.

(** The domain pattern is anchored at the end only: it accepts exactly
    the values that end with domain-name characters, a dot and letters,
    whatever comes before. *)
Theorem domainRegex_iff (s : string) :
  MatchString domainRegex s = true
  <-> exists pre dom, s = pre ++ dom /\ domain_shape dom.
Proof.
  split.
  - apply domainRegex_elim.
  - intros (pre & dom & -> & H). now apply domainRegex_intro.
Qed.

Lemma domainRegex_iff_witness :
  MatchString domainRegex "!!test-domain.com" = true
  /\ exists pre dom, "!!test-domain.com" = pre ++ dom /\ domain_shape dom.
Proof.
  split; [reflexivity|].
  exact (proj1 (domainRegex_iff "!!test-domain.com") eq_refl).
Defined.

(** The full pattern is anchored at both ends: it accepts exactly the
    strings made of username characters, ["@"], domain-name characters, a
    dot and letters. *)
Theorem emailRegex_iff (s : string) :
  MatchString emailRegex s = true
  <-> exists u dom, s = u ++ "@" ++ dom /\ email_shape u dom.
Proof.
  split.
  - apply emailRegex_elim.
  - intros (u & dom & -> & H). now apply emailRegex_intro.
Qed.

Lemma emailRegex_iff_witness :
  MatchString emailRegex "john.doe@example.co.id" = true
  /\ exists u dom, "john.doe@example.co.id" = u ++ "@" ++ dom /\ email_shape u dom.
Proof.
  split; [reflexivity|].
  exact (proj1 (emailRegex_iff "john.doe@example.co.id") eq_refl).
Defined.

(** ** Constructors *)

(** A string with a single occurrence of [c] splits around it in one way
    only. *)
Lemma split_unique (c : ascii) (a' b' a b : string) :
  a ++ String c b = a' ++ String c b' ->
  occurs c a' = false -> occurs c b' = false ->
  a = a' /\ b = b'.
Proof.
  revert a. induction a' as [|x' a' IH]; intros a Heq Ha' Hb'.
  - destruct a as [|x a]; cbn [append] in Heq.
    + now injection Heq as <-.
    + injection Heq as -> <-. rewrite occurs_append in Hb'. simpl in Hb'.
      rewrite Ascii.eqb_refl, orb_true_r in Hb'. discriminate.
  - simpl in Ha'. apply orb_false_elim in Ha' as [Hx' Ha'].
    destruct a as [|x a]; cbn [append] in Heq.
    + injection Heq as <- _. rewrite Ascii.eqb_refl in Hx'. discriminate.
    + injection Heq as -> Heq. destruct (IH a Heq Ha' Hb') as [-> ->]. now split.
Qed.

Lemma email_shape_no_at (u dom : string) :
  email_shape u dom -> occurs "@" u = false /\ occurs "@" dom = false.
Proof.
  intros (_ & Hu & Hdom). split.
  - now apply (all_in_not_occurs usernameChars).
  - now apply domain_shape_no_at.
Qed.

Lemma New_of_shape (u dom : string) :
  email_shape u dom -> New (u ++ "@" ++ dom) = Return (Ok (mkEmailParts u dom)).
Proof.
  intros H. destruct (email_shape_no_at u dom H) as [Hu Hdom].
  unfold New. rewrite (emailRegex_intro u dom H). cbn [negb].
  unfold strings.Split, emailSeparator. cbn [append].
  now rewrite Split_aux_first, Split_aux_absent.
Qed.

(** When the full pattern accepts [u ++ "@" ++ dom], the two sides of the
    ["@"] are a username and a domain of the e-mail shape. *)
Lemma emailRegex_parts (u dom : string) :
  MatchString emailRegex (u ++ "@" ++ dom) = true -> email_shape u dom.
Proof.
  intros H. apply emailRegex_elim in H as (u' & dom' & Heq & Hshape).
  destruct (email_shape_no_at u' dom' Hshape) as [Hu' Hdom'].
  cbn [append] in Heq.
  now destruct (split_unique "@" u' dom' u dom Heq Hu' Hdom') as [-> ->].
Qed.

(** No constructor panics: the full pattern admits a single ["@"], so the
    split that [New] indexes at [0] and [1] has two pieces; and the only
    error of [New] is [ErrInvalidEmailFormat]. *)
Theorem constructors_never_panic :
  (forall s, New s = Return (Err ErrInvalidEmailFormat)
             \/ exists e, New s = Return (Ok e))
  /\ (forall u d, exists r, NewFromUsernameAndDomain u d = Return r)
  /\ (forall u n t, exists r, NewFromFullParts u n t = Return r).
Proof.
  assert (HNew : forall s, New s = Return (Err ErrInvalidEmailFormat)
                           \/ exists e, New s = Return (Ok e)).
  { intros s. destruct (MatchString emailRegex s) eqn:H.
    - right. destruct (New_accepts s H) as (u & dom & _ & _ & Hnew). eauto.
    - left. now apply New_rejects. }
  assert (HUD : forall u d, exists r, NewFromUsernameAndDomain u d = Return r).
  { intros u d. unfold NewFromUsernameAndDomain.
    destruct (negb _); [eauto|]. destruct (negb _); [eauto|].
    destruct (HNew (generateEmail u d)) as [->|[e ->]]; eauto. }
  split; [exact HNew|]. split; [exact HUD|].
  intros u n t. unfold NewFromFullParts.
  destruct (negb _); [eauto|]. destruct (negb _); [eauto|]. apply HUD.
Qed.

(** An instance returned by a constructor satisfies the three grammars,
    and building it again from its own e-mail, or from its own username
    and domain, returns the same instance. *)
Theorem constructed_instance_valid (e : bEmailParts) :
  constructed e ->
  MatchString usernameRegex (Username e) = true
  /\ MatchString domainRegex (Domain e) = true
  /\ MatchString emailRegex (Email e) = true
  /\ New (Email e) = Return (Ok e)
  /\ NewFromUsernameAndDomain (Username e) (Domain e) = Return (Ok e).
Proof.
  intros H. destruct (constructed_valid e H) as (Hu & Hd & He).
  apply constructed_shape in H.
  assert (Hnew : New (Email e) = Return (Ok e)).
  { unfold Email, generateEmail, emailSeparator.
    rewrite (New_of_shape _ _ H). now destruct e. }
  repeat split; try assumption.
  unfold NewFromUsernameAndDomain, Username, Domain. rewrite Hu, Hd. exact Hnew.
Qed.

Lemma constructed_instance_valid_witness :
  let e := mkEmailParts "test.username" "test-domain.com" in
  constructed e
  /\ MatchString usernameRegex (Username e) = true
  /\ MatchString domainRegex (Domain e) = true
  /\ MatchString emailRegex (Email e) = true
  /\ New (Email e) = Return (Ok e)
  /\ NewFromUsernameAndDomain (Username e) (Domain e) = Return (Ok e).
Proof.
  intros e.
  assert (H : constructed e)
    by (apply (by_NewFromFullParts e "test.username" "test-domain" "com"); reflexivity).
  split; [exact H | exact (constructed_instance_valid e H)].
Defined.

(** A username and a domain of the e-mail shape pass the two part checks
    and the full check. *)
Lemma NewFromUsernameAndDomain_of_shape (u d : string) :
  email_shape u d ->
  NewFromUsernameAndDomain u d = Return (Ok (mkEmailParts u d)).
Proof.
  intros Hshape. pose proof Hshape as (Hu & Huc & Hdom).
  pose proof (domainRegex_intro "" d Hdom) as Hd. cbn [append] in Hd.
  unfold NewFromUsernameAndDomain.
  rewrite (usernameRegex_intro u Hu Huc), Hd. cbn [negb].
  now apply New_of_shape.
Qed.

Lemma NewFromUsernameAndDomain_Ok_shape (u d : string) (e : bEmailParts) :
  NewFromUsernameAndDomain u d = Return (Ok e) ->
  e = mkEmailParts u d /\ email_shape u d.
Proof.
  unfold NewFromUsernameAndDomain.
  destruct (negb _); [discriminate|]. destruct (negb _); [discriminate|].
  unfold generateEmail, emailSeparator. intros H.
  destruct (MatchString emailRegex (u ++ "@" ++ d)) eqn:Hm.
  - apply emailRegex_parts in Hm. split; [|exact Hm].
    rewrite (New_of_shape u d Hm) in H. now injection H as <-.
  - rewrite (New_rejects _ Hm) in H. discriminate.
Qed.

Lemma NewFromFullParts_Ok_stores (u n t : string) (e : bEmailParts) :
  NewFromFullParts u n t = Return (Ok e) ->
  e = mkEmailParts u (n ++ normalized t).
Proof.
  unfold NewFromFullParts.
  destruct (negb _); [discriminate|]. destruct (negb _); [discriminate|].
  rewrite generateDomain_eq. intros H.
  now apply NewFromUsernameAndDomain_Ok_shape in H.
Qed.

(** [NewFromUsernameAndDomain] succeeds exactly when the full pattern
    accepts [username + "@" + domain] (the two part checks reject nothing
    that the full check would accept), and the instance stores the two
    arguments as they are. *)
Theorem NewFromUsernameAndDomain_iff (u d : string) (e : bEmailParts) :
  NewFromUsernameAndDomain u d = Return (Ok e)
  <-> MatchString emailRegex (u ++ "@" ++ d) = true /\ e = mkEmailParts u d.
Proof.
  split.
  - intros H. apply NewFromUsernameAndDomain_Ok_shape in H as [-> Hshape].
    split; [now apply emailRegex_intro | reflexivity].
  - intros [Hm ->]. now apply NewFromUsernameAndDomain_of_shape, emailRegex_parts.
Qed.

Lemma NewFromUsernameAndDomain_iff_witness :
  let e := mkEmailParts "john.doe" "example.com" in
  (NewFromUsernameAndDomain "john.doe" "example.com" = Return (Ok e)
   /\ MatchString emailRegex ("john.doe" ++ "@" ++ "example.com") = true)
  /\ (MatchString emailRegex ("john.doe" ++ "@" ++ "example.com") = true /\ e = e)
  /\ NewFromUsernameAndDomain "john.doe" "example.com" = Return (Ok e).
Proof.
  intros e. split; [split|split].
  - reflexivity.
  - exact (proj1 (proj1 (NewFromUsernameAndDomain_iff "john.doe" "example.com" e) eq_refl)).
  - split; reflexivity.
  - exact (proj2 (NewFromUsernameAndDomain_iff "john.doe" "example.com" e)
             (conj eq_refl eq_refl)).
Defined.

Lemma generateDomain_normalized (name tld : string) :
  generateDomain name tld = name ++ normalized tld.
Proof. apply generateDomain_eq. Qed.

(** The normalised TLD starts with one dot more than the TLD stripped of
    its leading dot. *)
Lemma normalized_dot (tld : string) :
  normalized tld = "." ++ strings.TrimPrefix tld ".".
Proof.
  unfold normalized, strings.TrimPrefix.
  destruct (strings.HasPrefix tld ".") eqn:H; [|reflexivity].
  apply HasPrefix_single in H as (t & ->). reflexivity.
Qed.

(** [NewFromFullParts] succeeds exactly when its two part checks pass and
    the full pattern accepts the synthesised address; the instance stores
    the username and the name followed by the normalised TLD. *)
Theorem NewFromFullParts_iff (u n t : string) (e : bEmailParts) :
  NewFromFullParts u n t = Return (Ok e)
  <-> MatchString domainNameRegex n = true
      /\ MatchString domainTLDRegex t = true
      /\ MatchString emailRegex (u ++ "@" ++ n ++ normalized t) = true
      /\ e = mkEmailParts u (n ++ normalized t).
Proof.
  unfold NewFromFullParts. rewrite generateDomain_normalized.
  destruct (MatchString domainNameRegex n); cbn [negb];
    [|split; [discriminate | intros (H & _); discriminate]].
  destruct (MatchString domainTLDRegex t); cbn [negb];
    [|split; [discriminate | intros (_ & H & _); discriminate]].
  split.
  - intros H. apply NewFromUsernameAndDomain_Ok_shape in H as [-> Hshape].
    repeat split. now apply emailRegex_intro.
  - intros (_ & _ & Hm & ->).
    now apply NewFromUsernameAndDomain_of_shape, emailRegex_parts.
Qed.

Lemma NewFromFullParts_iff_witness :
  let e := mkEmailParts "john.doe" "example.co.id" in
  NewFromFullParts "john.doe" "example" ".co.id" = Return (Ok e)
  /\ (MatchString domainNameRegex "example" = true
      /\ MatchString domainTLDRegex ".co.id" = true
      /\ MatchString emailRegex ("john.doe" ++ "@" ++ "example" ++ normalized ".co.id") = true
      /\ e = mkEmailParts "john.doe" ("example" ++ normalized ".co.id")).
Proof.
  intros e. split; [reflexivity|].
  exact (proj1 (NewFromFullParts_iff "john.doe" "example" ".co.id" e) eq_refl).
Defined.

(** The parts given to [NewFromFullParts] come back from the accessors
    when the domain name has no dot of its own: [DomainName()] is the name,
    [DomainTLD()] the TLD with its dot, [DomainTLDWithoutDot()] the TLD
    without a leading dot.  With a dot in the name, [DomainName()] is not
    the name that was given. *)
Theorem NewFromFullParts_parts (u n t : string) (e : bEmailParts) :
  NewFromFullParts u n t = Return (Ok e) ->
  Username e = u
  /\ Domain e = n ++ normalized t
  /\ (occurs "." n = false ->
      DomainName e = Return n
      /\ DomainTLD e = Return (normalized t)
      /\ DomainTLDWithoutDot e = Return (strings.TrimPrefix t "."))
  /\ (occurs "." n = true -> DomainName e <> Return n).
Proof.
  intros H. apply NewFromFullParts_Ok_stores in H as ->.
  split; [reflexivity|]. split; [reflexivity|]. split.
  - intros Hn. rewrite normalized_dot.
    destruct (accessors_first_dot
                (mkEmailParts u (n ++ "." ++ strings.TrimPrefix t ".")) n
                (strings.TrimPrefix t ".") eq_refl Hn) as (_ & Hname & Htld & Hw).
    now repeat split.
  - intros Hn. destruct (occurs_first _ _ Hn) as (n1 & w1 & -> & Hn1).
    destruct (accessors_first_dot
                (mkEmailParts u ((n1 ++ String "." w1) ++ normalized t)) n1
                (w1 ++ normalized t)) as (_ & Hname & _);
      [cbn [domain]; now rewrite append_assoc | assumption|].
    rewrite Hname. intros [= Heq].
    apply (f_equal String.length) in Heq. rewrite length_append in Heq.
    cbn [String.length] in Heq. lia.
Qed.

Lemma NewFromFullParts_parts_witness :
  let e := mkEmailParts "john.doe" "example.co.id" in
  (NewFromFullParts "john.doe" "example" "co.id" = Return (Ok e)
   /\ occurs "." "example" = false)
  /\ DomainName e = Return "example"
  /\ DomainTLD e = Return (normalized "co.id")
  /\ DomainTLDWithoutDot e = Return (strings.TrimPrefix "co.id" ".").
Proof.
  intros e. split; [split; reflexivity|].
  exact (proj1 (proj2 (proj2
           (NewFromFullParts_parts "john.doe" "example" "co.id" e eq_refl)))
           eq_refl).
Defined.

(** ** Accessors *)

(** [DomainName()], [DomainTLD()] and [DomainTLDWithoutDot()] panic exactly
    on a receiver whose domain has no dot: [strings.Index] answers [-1]
    and the slice expression is out of range. *)
Theorem accessors_panic_iff (e : bEmailParts) :
  (DomainName e = Panic <-> occurs "." (domain e) = false)
  /\ (DomainTLD e = Panic <-> occurs "." (domain e) = false)
  /\ (DomainTLDWithoutDot e = Panic <-> occurs "." (domain e) = false).
Proof.
  destruct (occurs "." (domain e)) eqn:Hdot.
  - destruct (occurs_first _ _ Hdot) as (n & w & Hdom & Hn).
    destruct (accessors_first_dot e n w Hdom Hn) as (_ & -> & -> & ->).
    repeat split; discriminate.
  - destruct (accessors_no_dot e Hdot) as (-> & -> & ->). repeat split.
Qed.

Lemma accessors_panic_iff_witness :
  let e := mkEmailParts "a" "localhost" in
  occurs "." (domain e) = false
  /\ DomainName e = Panic /\ DomainTLD e = Panic /\ DomainTLDWithoutDot e = Panic.
Proof.
  intros e. split; [reflexivity|].
  destruct (accessors_panic_iff e) as (H1 & H2 & H3).
  split; [exact (proj2 H1 eq_refl)|].
  split; [exact (proj2 H2 eq_refl) | exact (proj2 H3 eq_refl)].
Defined.

(** ** Setters *)

Lemma last_in_append (cls : class) (a b : string) :
  b <> "" -> last_in cls (a ++ b) = last_in cls b.
Proof.
  intros Hb. induction a as [|x a IH]; [reflexivity|].
  cbn [append last_in]. rewrite <- IH.
  destruct (a ++ b) eqn:Hab; [|reflexivity].
  destruct a; [cbn in Hab; congruence | discriminate].
Qed.

Lemma last_in_all_in (cls : class) (t : string) :
  t <> "" -> all_in cls t = true -> last_in cls t = true.
Proof.
  induction t as [|a t IH]; [congruence|]. intros _ H.
  simpl in H. apply andb_true_iff in H as [Ha Ht].
  destruct t as [|b t]; [exact Ha|]. apply IH; [discriminate | exact Ht].
Qed.

Lemma domain_shape_last (dom : string) : domain_shape dom -> last_in alpha dom = true.
Proof.
  intros (d & t & -> & _ & _ & Ht & Htc).
  rewrite last_in_append by (cbn; discriminate).
  rewrite (last_in_append alpha "." t Ht).
  now apply last_in_all_in.
Qed.

Lemma normalized_first_dot (tld : string) : normalized ("." ++ tld) = "." ++ tld.
Proof.
  unfold normalized, strings.HasPrefix. cbn [append]. now rewrite prefix_single.
Qed.

Lemma last_in_normalized (tld : string) :
  last_in alpha tld = true -> last_in alpha (normalized tld) = true.
Proof.
  intros H. unfold normalized. destruct (strings.HasPrefix tld "."); [exact H|].
  rewrite last_in_append; [exact H | intros ->; discriminate].
Qed.

Lemma bEmailParts_eta (e : bEmailParts) : mkEmailParts (username e) (domain e) = e.
Proof. now destruct e. Qed.

(** The shape of a setter call on a receiver whose domain is [n], a dot
    and [w], with no dot in [n]. *)
Lemma SetDomainName_at (e : bEmailParts) (n w v : string) :
  domain e = n ++ "." ++ w -> occurs "." n = false ->
  MatchString domainNameRegex v = true ->
  SetDomainName v e = Return (mkEmailParts (username e) (v ++ "." ++ w), None).
Proof.
  intros Hdom Hn Hv.
  destruct (accessors_first_dot e n w Hdom Hn) as (_ & _ & Htld & _).
  unfold SetDomainName. rewrite Hv, Htld. cbn [negb bind].
  now rewrite generateDomain_normalized, normalized_first_dot.
Qed.

Lemma SetDomainTLD_at (e : bEmailParts) (n w v : string) :
  domain e = n ++ "." ++ w -> occurs "." n = false ->
  MatchString domainTLDRegex v = true ->
  SetDomainTLD v e = Return (mkEmailParts (username e) (n ++ normalized v), None).
Proof.
  intros Hdom Hn Hv.
  destruct (accessors_first_dot e n w Hdom Hn) as (_ & Hname & _).
  unfold SetDomainTLD. rewrite Hv, Hname. cbn [negb bind].
  now rewrite generateDomain_normalized.
Qed.

Lemma run_keeps_last (c : call) (e e' : bEmailParts) (err : option error) :
  occurs "." (domain e) = true -> last_in alpha (domain e) = true ->
  run c e = Return (e', err) -> last_in alpha (domain e') = true.
Proof.
  intros Hdot Hlast Hrun.
  destruct (occurs_first _ _ Hdot) as (n & w & Hdom & Hn).
  destruct c as [v|v|v|v]; cbn [run] in Hrun.
  - unfold SetUsername in Hrun. returned Hrun; exact Hlast.
  - unfold SetDomain in Hrun. returned Hrun; [|exact Hlast].
    apply domainRegex_elim in Hv as (pre & dom & -> & Hdom').
    cbn [domain]. rewrite last_in_append; [now apply domain_shape_last|].
    destruct Hdom' as (d & t & -> & Hd & _). destruct d; [congruence | discriminate].
  - destruct (MatchString domainNameRegex v) eqn:Hv.
    + rewrite (SetDomainName_at e n w v Hdom Hn Hv) in Hrun. injection Hrun as <- _.
      cbn [domain]. rewrite Hdom in Hlast.
      rewrite last_in_append in Hlast by discriminate.
      now rewrite last_in_append by discriminate.
    + unfold SetDomainName in Hrun. rewrite Hv in Hrun. now injection Hrun as <- _.
  - destruct (MatchString domainTLDRegex v) eqn:Hv.
    + rewrite (SetDomainTLD_at e n w v Hdom Hn Hv) in Hrun. injection Hrun as <- _.
      cbn [domain]. rewrite domainTLDRegex_search, search_class_Eol_last in Hv.
      pose proof (last_in_normalized v Hv) as Hnv.
      rewrite last_in_append; [exact Hnv | intros Heq; now rewrite Heq in Hnv].
    + unfold SetDomainTLD in Hrun. rewrite Hv in Hrun. now injection Hrun as <- _.
Qed.

Lemma reachable_last (e : bEmailParts) : reachable e -> last_in alpha (domain e) = true.
Proof.
  intros H. pose proof (reachable_dot e H) as Hdot. revert Hdot.
  induction H as [e H|e e' c err Hreach IH Hrun]; intros Hdot.
  - apply constructed_shape in H as (_ & _ & Hdom). now apply domain_shape_last.
  - pose proof (reachable_dot e Hreach) as Hdot0.
    exact (run_keeps_last c e e' err Hdot0 (IH Hdot0) Hrun).
Qed.

(** What the setters keep of the grammars: on every reachable instance the
    username begins with a username character and the domain ends with a
    letter (besides holding a dot). *)
Theorem reachable_invariant (e : bEmailParts) :
  reachable e ->
  (exists c r, Username e = String c r /\ in_class usernameChars c = true)
  /\ last_in alpha (Domain e) = true
  /\ MatchString usernameRegex (Username e) = true
  /\ MatchString domainTLDRegex (Domain e) = true.
Proof.
  intros H. pose proof (reachable_username e H) as Hu.
  pose proof (reachable_last e H) as Hd. unfold Username, Domain.
  split; [|split; [exact Hd | split; [exact Hu|]]].
  - now apply usernameRegex_elim.
  - now rewrite domainTLDRegex_search, search_class_Eol_last.
Qed.

Lemma reachable_invariant_witness :
  let e := mkEmailParts "a!" "x.1a" in
  reachable e
  /\ (exists c r, Username e = String c r /\ in_class usernameChars c = true)
  /\ last_in alpha (Domain e) = true
  /\ MatchString usernameRegex (Username e) = true
  /\ MatchString domainTLDRegex (Domain e) = true.
Proof.
  intros e.
  assert (He : reachable e).
  { apply (reach_call (mkEmailParts "a!" "x.com") e (CallSetDomainTLD "1a") None);
      [|reflexivity].
    apply (reach_call (mkEmailParts "a!" "b.com") _ (CallSetDomainName "x") None);
      [|reflexivity].
    apply (reach_call (mkEmailParts "a" "b.com") _ (CallSetUsername "a!") None);
      [|reflexivity].
    apply reach_constructed, (by_New _ "a@b.com"). reflexivity. }
  split; [exact He | exact (reachable_invariant e He)].
Defined.

(** After an accepted [SetDomainTLD(v)] on a reachable instance,
    [DomainName()] is what it was, [DomainTLD()] is [v] with its dot and
    [DomainTLDWithoutDot()] is [v] without a leading dot. *)
Theorem SetDomainTLD_roundtrip (e : bEmailParts) (v : string) :
  reachable e -> MatchString domainTLDRegex v = true ->
  exists name e',
    DomainName e = Return name
    /\ SetDomainTLD v e = Return (e', None)
    /\ Username e' = Username e
    /\ DomainName e' = Return name
    /\ DomainTLD e' = Return (normalized v)
    /\ DomainTLDWithoutDot e' = Return (strings.TrimPrefix v ".").
Proof.
  intros He Hv.
  destruct (occurs_first _ _ (reachable_dot e He)) as (n & w & Hdom & Hn).
  destruct (accessors_first_dot e n w Hdom Hn) as (_ & Hname & _).
  exists n, (mkEmailParts (username e) (n ++ normalized v)).
  split; [exact Hname|]. split; [now apply (SetDomainTLD_at e n w)|].
  split; [reflexivity|]. rewrite normalized_dot.
  destruct (accessors_first_dot
              (mkEmailParts (username e) (n ++ "." ++ strings.TrimPrefix v ".")) n
              (strings.TrimPrefix v ".") eq_refl Hn) as (_ & Hname' & Htld' & Hw').
  now repeat split.
Qed.

Lemma SetDomainTLD_roundtrip_witness :
  let e := mkEmailParts "john.doe" "example.com" in
  (reachable e /\ MatchString domainTLDRegex "org" = true)
  /\ exists name e',
       DomainName e = Return name
       /\ SetDomainTLD "org" e = Return (e', None)
       /\ Username e' = Username e
       /\ DomainName e' = Return name
       /\ DomainTLD e' = Return (normalized "org")
       /\ DomainTLDWithoutDot e' = Return (strings.TrimPrefix "org" ".").
Proof.
  intros e.
  assert (He : reachable e).
  { apply reach_constructed, (by_New e "john.doe@example.com"). reflexivity. }
  split; [split; [exact He | reflexivity]|].
  exact (SetDomainTLD_roundtrip e "org" He eq_refl).
Defined.

(** Setting the domain name and the TLD one after the other, on a
    reachable instance and with accepted values: TLD first, the domain ends
    as the name followed by the normalised TLD; name first, it does so too
    when the name has no dot.  (With a dot in the name, [SetDomainTLD]
    keeps the name only up to its first dot.) *)
Theorem SetDomainName_SetDomainTLD_compose (e : bEmailParts) (n t : string) :
  reachable e ->
  MatchString domainNameRegex n = true -> MatchString domainTLDRegex t = true ->
  let final := mkEmailParts (username e) (n ++ normalized t) in
  (exists e1, SetDomainTLD t e = Return (e1, None)
              /\ SetDomainName n e1 = Return (final, None))
  /\ (occurs "." n = false ->
      exists e1, SetDomainName n e = Return (e1, None)
                 /\ SetDomainTLD t e1 = Return (final, None))
  /\ (forall n1 n2, n = n1 ++ "." ++ n2 -> occurs "." n1 = false ->
      exists e1, SetDomainName n e = Return (e1, None)
                 /\ SetDomainTLD t e1
                    = Return (mkEmailParts (username e) (n1 ++ normalized t), None)).
Proof.
  intros He Hn Ht final. subst final.
  destruct (occurs_first _ _ (reachable_dot e He)) as (n0 & w & Hdom & Hn0).
  split; [|split].
  - exists (mkEmailParts (username e) (n0 ++ normalized t)).
    split; [now apply (SetDomainTLD_at e n0 w)|].
    rewrite normalized_dot.
    exact (SetDomainName_at
             (mkEmailParts (username e) (n0 ++ "." ++ strings.TrimPrefix t "."))
             n0 (strings.TrimPrefix t ".") n eq_refl Hn0 Hn).
  - intros Hdotfree. exists (mkEmailParts (username e) (n ++ "." ++ w)).
    split; [now apply (SetDomainName_at e n0 w)|].
    exact (SetDomainTLD_at (mkEmailParts (username e) (n ++ "." ++ w))
             n w t eq_refl Hdotfree Ht).
  - intros n1 n2 -> Hn1. exists (mkEmailParts (username e) ((n1 ++ "." ++ n2) ++ "." ++ w)).
    split; [now apply (SetDomainName_at e n0 w)|].
    pose proof (SetDomainTLD_at
                  (mkEmailParts (username e) ((n1 ++ "." ++ n2) ++ "." ++ w))
                  n1 (n2 ++ "." ++ w) t) as H.
    cbn [domain username] in H. apply H; [|assumption..].
    now rewrite !append_assoc.
Qed.

Lemma SetDomainName_SetDomainTLD_compose_witness :
  let e := mkEmailParts "john.doe" "example.com" in
  (reachable e /\ MatchString domainNameRegex "mail.corp" = true
   /\ MatchString domainTLDRegex "org" = true /\ occurs "." "mail" = false)
  /\ (exists e1, SetDomainTLD "org" e = Return (e1, None)
                 /\ SetDomainName "mail.corp" e1
                    = Return (mkEmailParts "john.doe" "mail.corp.org", None))
  /\ (exists e1, SetDomainName "mail.corp" e = Return (e1, None)
                 /\ SetDomainTLD "org" e1
                    = Return (mkEmailParts "john.doe" "mail.org", None)).
Proof.
  intros e.
  assert (He : reachable e).
  { apply reach_constructed, (by_New e "john.doe@example.com"). reflexivity. }
  split; [repeat split; exact He|].
  destruct (SetDomainName_SetDomainTLD_compose e "mail.corp" "org" He eq_refl eq_refl)
    as (H1 & _ & H3).
  split; [exact H1 | exact (H3 "mail" "corp" eq_refl eq_refl)].
Defined.

(** Giving a reachable instance its own parts back changes nothing:
    [SetUsername(Username())] and [SetDomainTLD(DomainTLD())] are accepted
    and leave the instance as it is; [SetDomainName(DomainName())] and
    [SetDomain(Domain())] leave it as it is whether they accept the value
    or not. *)
Theorem setters_own_parts (e : bEmailParts) :
  reachable e ->
  exists name tld,
    DomainName e = Return name
    /\ DomainTLD e = Return tld
    /\ SetUsername (Username e) e = Return (e, None)
    /\ SetDomainTLD tld e = Return (e, None)
    /\ (exists err, SetDomainName name e = Return (e, err))
    /\ (exists err, SetDomain (Domain e) e = Return (e, err)).
Proof.
  intros He.
  destruct (occurs_first _ _ (reachable_dot e He)) as (n & w & Hdom & Hn).
  destruct (accessors_first_dot e n w Hdom Hn) as (_ & Hname & Htld & _).
  exists n, ("." ++ w). split; [exact Hname|]. split; [exact Htld|].
  split; [|split; [|split]].
  - unfold SetUsername, Username. rewrite (reachable_username e He). cbn [negb].
    now rewrite bEmailParts_eta.
  - rewrite (SetDomainTLD_at e n w ("." ++ w) Hdom Hn).
    + rewrite normalized_first_dot. cbn [append].
      now rewrite <- Hdom, bEmailParts_eta.
    + rewrite domainTLDRegex_search, search_class_Eol_last.
      pose proof (reachable_last e He) as Hlast. rewrite Hdom in Hlast.
      now rewrite last_in_append in Hlast by discriminate.
  - destruct (MatchString domainNameRegex n) eqn:Hv.
    + rewrite (SetDomainName_at e n w n Hdom Hn Hv). cbn [append].
      rewrite <- Hdom, bEmailParts_eta. eauto.
    + unfold SetDomainName. rewrite Hv. cbn [negb]. eauto.
  - unfold SetDomain, Domain. destruct (negb _); [eauto|].
    rewrite bEmailParts_eta. eauto.
Qed.

Lemma setters_own_parts_witness :
  let e := mkEmailParts "a" "..com" in
  reachable e
  /\ exists name tld,
       DomainName e = Return name
       /\ DomainTLD e = Return tld
       /\ SetUsername (Username e) e = Return (e, None)
       /\ SetDomainTLD tld e = Return (e, None)
       /\ (exists err, SetDomainName name e = Return (e, err))
       /\ (exists err, SetDomain (Domain e) e = Return (e, err)).
Proof.
  intros e.
  assert (He : reachable e).
  { apply reach_constructed, (by_New e "a@..com"). reflexivity. }
  split; [exact He | exact (setters_own_parts e He)].
Defined.

(** * The earlier variant *)

Example test_LastIndex :
  strings.LastIndex "b.co.id" "." = 4 /\ strings.LastIndex "bcoid" "." = -1
  /\ strings.LastIndex "" "." = -1 /\ strings.LastIndex ".a" "." = 0
  /\ strings.LastIndex "a.." "." = 2 /\ strings.LastIndex "a-b--c" "--" = 3.
Proof. repeat split. Qed.

Example test_bemailpart :
  bemailpart.New "test.username@test-domain.com"
  = Return (Ok (mkEmailParts "test.username" "test-domain.com"))
  /\ bemailpart.New "a@b.c123@#!@#" = Return (Ok (mkEmailParts "a" "b.c123"))
  /\ bemailpart.NewFromFullParts "u" "example" ".com"
     = Return (Ok (mkEmailParts "u" "example..com"))
  /\ bemailpart.DomainName (mkEmailParts "a" "b.co.id") = Return "b.co"
  /\ bemailpart.DomainTLD (mkEmailParts "a" "b.co.id") = Return ".id"
  /\ bemailpart.SetDomainName "x" (mkEmailParts "a" "b.com")
     = Return (mkEmailParts "a" "x..com", None).
Proof. repeat split. Qed.

Section LastOccurrence.

Variable c : ascii.

Lemma LastIndex_absent (s : string) :
  occurs c s = false -> strings.LastIndex s (String c "") = -1.
Proof.
  induction s as [|a s IH]; intros Hs; [reflexivity|].
  simpl in Hs. apply orb_false_elim in Hs as [Ha Hs].
  cbn [strings.LastIndex]. rewrite (IH Hs), prefix_single, Ha. reflexivity.
Qed.

Lemma LastIndex_last (n w : string) :
  occurs c w = false ->
  strings.LastIndex (n ++ String c w) (String c "") = Z.of_nat (String.length n).
Proof.
  intros Hw. induction n as [|a n IH].
  - cbn [append strings.LastIndex]. rewrite (LastIndex_absent w Hw).
    now rewrite prefix_single, Ascii.eqb_refl.
  - cbn [append strings.LastIndex]. rewrite IH.
    destruct (0 <=? Z.of_nat (String.length n)) eqn:H.
    + cbn [String.length]. lia.
    + apply Z.leb_gt in H. lia.
Qed.

(** A string in which [c] occurs splits at the last occurrence. *)
Lemma occurs_last (s : string) :
  occurs c s = true ->
  exists n w, s = n ++ String c w /\ occurs c w = false.
Proof.
  induction s as [|a s IH]; simpl; [discriminate|].
  destruct (occurs c s) eqn:Hs.
  - intros _. destruct (IH eq_refl) as (n & w & -> & Hw). now exists (String a n), w.
  - rewrite orb_false_r. intros Ha. apply Ascii.eqb_eq in Ha. subst a.
    now exists "", s.
Qed.

(** The first piece of a split holds no separator, and is followed by
    nothing or by a separator. *)
Lemma Split_aux_head (x : string) :
  exists seg pieces r,
    strings.Split_aux (String c "") 0 x = seg :: pieces
    /\ occurs c seg = false
    /\ x = seg ++ r
    /\ (r = "" \/ exists r', r = String c r').
Proof.
  destruct (occurs c x) eqn:Hx.
  - destruct (occurs_first c x Hx) as (seg & r' & -> & Hseg).
    exists seg, (strings.Split_aux (String c "") 0 r'), (String c r').
    rewrite Split_aux_first by assumption. repeat split; eauto.
  - exists x, [], "". rewrite Split_aux_absent by assumption.
    rewrite append_empty_r. repeat split; auto.
Qed.

(** A prefix that holds no [c] lies before the first [c]. *)
Lemma prefix_before (a b seg r : string) :
  a ++ b = seg ++ String c r -> occurs c a = false -> exists b', seg = a ++ b'.
Proof.
  revert seg. induction a as [|x a IH]; intros seg Heq Ha; [now exists seg|].
  simpl in Ha. apply orb_false_elim in Ha as [Hx Ha].
  destruct seg as [|y seg]; cbn [append] in Heq.
  - injection Heq as -> _. rewrite Ascii.eqb_refl in Hx. discriminate.
  - injection Heq as -> Heq. destruct (IH seg Heq Ha) as (b' & ->). now exists b'.
Qed.

End LastOccurrence.

Lemma v1_domainRegex_items :
  bemailpart.domainRegex = [ClassPlus domainNameChars; Chr "."; ClassPlus alpha].
Proof. reflexivity. Qed.

Lemma v1_emailRegex_items :
  bemailpart.emailRegex
  = Bol :: ClassPlus usernameChars :: Chr "@" :: bemailpart.domainRegex.
Proof. reflexivity. Qed.

Lemma v1_domain_here_elim (bot : bool) (s : string) :
  match_here bemailpart.domainRegex bot s = true ->
  exists dom rest, s = dom ++ rest /\ domain_shape dom.
Proof.
  rewrite v1_domainRegex_items. intros H.
  apply match_plus_elim in H as (d & r & -> & Hd & Hdc & H).
  destruct r as [|a r]; [discriminate|]. rewrite match_chr_cons in H.
  apply andb_true_iff in H as [Ha H]. apply Ascii.eqb_eq in Ha. subst a.
  apply match_plus_elim in H as (t & rest & -> & Ht & Htc & _).
  exists (d ++ "." ++ t), rest. split.
  - rewrite append_assoc. reflexivity.
  - now exists d, t.
Qed.

Lemma v1_domain_here_intro (bot : bool) (dom rest : string) :
  domain_shape dom -> match_here bemailpart.domainRegex bot (dom ++ rest) = true.
Proof.
  intros (d & t & -> & Hd & Hdc & Ht & Htc). rewrite v1_domainRegex_items.
  rewrite append_assoc. apply match_plus_intro; [assumption..|].
  cbn [append]. rewrite match_chr_cons, Ascii.eqb_refl. cbn [andb].
  now apply match_plus_intro.
Qed.

Lemma v1_domainRegex_occurs (bot : bool) (s : string) :
  search bemailpart.domainRegex bot s = true -> occurs "." s = true.
Proof.
  revert bot. induction s as [|a s IH]; intros bot H; cbn [search] in H.
  - rewrite orb_false_r in H. discriminate.
  - apply orb_true_iff in H as [H|H].
    + apply v1_domain_here_elim in H as (dom & rest & -> & Hdom).
      rewrite occurs_append, (domain_shape_occurs _ Hdom). reflexivity.
    + cbn [occurs]. rewrite (IH _ H). apply orb_true_r.
Qed.

Lemma v1_emailRegex_elim (s : string) :
  MatchString bemailpart.emailRegex s = true ->
  exists u dom rest, s = u ++ "@" ++ dom ++ rest /\ email_shape u dom.
Proof.
  rewrite v1_emailRegex_items, MatchString_Bol.
  intros H. apply match_plus_elim in H as (u & r & -> & Hu & Huc & H).
  destruct r as [|a r]; [discriminate|]. rewrite match_chr_cons in H.
  apply andb_true_iff in H as [Ha H]. apply Ascii.eqb_eq in Ha. subst a.
  apply v1_domain_here_elim in H as (dom & rest & -> & Hdom).
  exists u, dom, rest. repeat split; assumption.
Qed.

Lemma v1_emailRegex_intro (u dom rest : string) :
  email_shape u dom ->
  MatchString bemailpart.emailRegex (u ++ "@" ++ dom ++ rest) = true.
Proof.
  intros (Hu & Huc & Hdom). rewrite v1_emailRegex_items, MatchString_Bol.
  apply match_plus_intro; [assumption..|].
  cbn [append]. rewrite match_chr_cons, Ascii.eqb_refl. cbn [andb].
  now apply v1_domain_here_intro.
Qed.

(** The full pattern of the earlier variant has no [$]: it accepts the
    strings that begin with an address of the e-mail shape, whatever
    follows. *)
Theorem v1_emailRegex_iff (s : string) :
  MatchString bemailpart.emailRegex s = true
  <-> exists u dom rest, s = u ++ "@" ++ dom ++ rest /\ email_shape u dom.
Proof.
  split.
  - apply v1_emailRegex_elim.
  - intros (u & dom & rest & -> & H). now apply v1_emailRegex_intro.
Qed.

Lemma v1_emailRegex_iff_witness :
  MatchString bemailpart.emailRegex "a@b.c123@#!@#" = true
  /\ exists u dom rest, "a@b.c123@#!@#" = u ++ "@" ++ dom ++ rest /\ email_shape u dom.
Proof.
  split; [reflexivity|].
  exact (proj1 (v1_emailRegex_iff "a@b.c123@#!@#") eq_refl).
Defined.

(** [New] of the earlier variant on a string that begins with an address
    of the e-mail shape: the domain it stores is the first piece of what
    follows the ["@"]. *)
Lemma v1_New_split (u dom rest0 : string) :
  email_shape u dom ->
  exists seg r,
    bemailpart.New (u ++ "@" ++ dom ++ rest0) = Return (Ok (mkEmailParts u seg))
    /\ dom ++ rest0 = seg ++ r
    /\ (r = "" \/ exists r', r = "@" ++ r')
    /\ occurs "@" seg = false
    /\ exists more, seg = dom ++ more.
Proof.
  intros Hshape. destruct (email_shape_no_at u dom Hshape) as [Hu Hdom].
  destruct (Split_aux_head "@" (dom ++ rest0))
    as (seg & pieces & r & Hsplit & Hseg & Heq & Hr).
  exists seg, r. split; [|split; [exact Heq|split; [exact Hr|split; [exact Hseg|]]]].
  - unfold bemailpart.New. rewrite (v1_emailRegex_intro u dom rest0 Hshape).
    cbn [negb]. unfold strings.Split, emailSeparator. cbn [append].
    rewrite Split_aux_first, Hsplit by assumption. reflexivity.
  - destruct Hr as [->|(r' & ->)].
    + rewrite append_empty_r in Heq. subst seg. now exists rest0.
    + exact (prefix_before "@" dom rest0 seg r' Heq Hdom).
Qed.

(** [New] of the earlier variant never panics.  On a string its pattern
    accepts it keeps the text before the first ["@"] as username and the
    text between the first and the second ["@"] (or the end) as domain:
    [Email()] gives the input back only up to a second ["@"], and the
    stored domain begins with a domain of the grammar. *)
Theorem v1_New_result (s : string) :
  (MatchString bemailpart.emailRegex s = false ->
   bemailpart.New s = Return (Err ErrInvalidEmailFormat))
  /\ (MatchString bemailpart.emailRegex s = true ->
      exists e rest,
        bemailpart.New s = Return (Ok e)
        /\ s = bemailpart.Email e ++ rest
        /\ (rest = "" \/ exists r, rest = "@" ++ r)
        /\ occurs "@" (username e) = false
        /\ occurs "@" (domain e) = false
        /\ exists dom more, domain e = dom ++ more /\ domain_shape dom).
Proof.
  split; intros H.
  - unfold bemailpart.New. now rewrite H.
  - apply v1_emailRegex_elim in H as (u & dom & rest0 & -> & Hshape).
    destruct (v1_New_split u dom rest0 Hshape)
      as (seg & r & Hnew & Heq & Hr & Hseg & more & Hmore).
    exists (mkEmailParts u seg), r. split; [exact Hnew|].
    destruct (email_shape_no_at u dom Hshape) as [Hu _].
    destruct Hshape as (_ & _ & Hdom).
    split; [|split; [exact Hr|split; [exact Hu|split; [exact Hseg|]]]].
    + unfold bemailpart.Email, bemailpart.generateEmail. cbn [username domain].
      rewrite Heq, !append_assoc. reflexivity.
    + now exists dom, more.
Qed.

Lemma v1_New_result_witness :
  (MatchString bemailpart.emailRegex "plainstring" = false
   /\ bemailpart.New "plainstring" = Return (Err ErrInvalidEmailFormat))
  /\ MatchString bemailpart.emailRegex "a@b.c123@#!@#" = true
  /\ exists e rest,
       bemailpart.New "a@b.c123@#!@#" = Return (Ok e)
       /\ "a@b.c123@#!@#" = bemailpart.Email e ++ rest
       /\ (rest = "" \/ exists r, rest = "@" ++ r)
       /\ occurs "@" (username e) = false
       /\ occurs "@" (domain e) = false
       /\ exists dom more, domain e = dom ++ more /\ domain_shape dom.
Proof.
  split; [split; [reflexivity|]|split; [reflexivity|]].
  - exact (proj1 (v1_New_result "plainstring") eq_refl).
  - exact (proj2 (v1_New_result "a@b.c123@#!@#") eq_refl).
Defined.

Lemma v1_New_Ok (s : string) (e : bEmailParts) :
  bemailpart.New s = Return (Ok e) -> occurs "." (domain e) = true.
Proof.
  destruct (MatchString bemailpart.emailRegex s) eqn:H.
  - apply v1_emailRegex_elim in H as (u & dom & rest0 & -> & Hshape).
    destruct (v1_New_split u dom rest0 Hshape) as (seg & r & -> & _ & _ & _ & more & ->).
    intros [= <-]. cbn [domain]. destruct Hshape as (_ & _ & Hdom).
    rewrite occurs_append, (domain_shape_occurs _ Hdom). reflexivity.
  - unfold bemailpart.New. rewrite H. discriminate.
Qed.

Lemma v1_constructed_dot (e : bEmailParts) :
  bemailpart.constructed e -> occurs "." (domain e) = true.
Proof.
  intros [s H|u d H|u n t H].
  - now apply v1_New_Ok in H.
  - unfold bemailpart.NewFromUsernameAndDomain in H.
    destruct (negb _); [discriminate|]. destruct (negb _); [discriminate|].
    now apply v1_New_Ok in H.
  - unfold bemailpart.NewFromFullParts, bemailpart.NewFromUsernameAndDomain in H.
    destruct (negb _); [discriminate|]. destruct (negb _); [discriminate|].
    destruct (negb _); [discriminate|]. destruct (negb _); [discriminate|].
    now apply v1_New_Ok in H.
Qed.

(** The accessors of the earlier variant split the domain at its last
    dot. *)
Lemma v1_accessors_last_dot (e : bEmailParts) (n w : string) :
  domain e = n ++ "." ++ w -> occurs "." w = false ->
  bemailpart.DomainName e = Return n /\ bemailpart.DomainTLD e = Return ("." ++ w).
Proof.
  intros Hdom Hw.
  assert (Hi : strings.LastIndex (domain e) domainSeparator = Z.of_nat (String.length n)).
  { unfold domainSeparator. rewrite Hdom. cbn [append]. now apply LastIndex_last. }
  assert (Hin : (0 <=? Z.of_nat (String.length n))
                && (Z.of_nat (String.length n) <=? Z.of_nat (String.length (domain e)))
                = true).
  { rewrite Hdom, length_append. apply andb_true_iff. split; apply Z.leb_le; lia. }
  unfold bemailpart.DomainName, bemailpart.DomainTLD, slice_to, slice_from.
  rewrite Hi, Hin, Nat2Z.id, Hdom. now rewrite take_append, drop_append.
Qed.

Lemma v1_run_keeps_dot (c : call) (e : bEmailParts) :
  occurs "." (domain e) = true ->
  exists e' err, bemailpart.run c e = Return (e', err) /\ occurs "." (domain e') = true.
Proof.
  intros Hdot.
  destruct (occurs_last _ _ Hdot) as (n & w & Hdom & Hw).
  destruct (v1_accessors_last_dot e n w Hdom Hw) as (Hname & Htld).
  assert (Hgen : forall a b, occurs "." (bemailpart.generateDomain a b) = true).
  { intros a b. unfold bemailpart.generateDomain. rewrite occurs_append.
    simpl. apply orb_true_r. }
  destruct c as [v|v|v|v]; cbn [bemailpart.run].
  - unfold bemailpart.SetUsername. destruct (negb _); eauto.
  - unfold bemailpart.SetDomain.
    destruct (MatchString bemailpart.domainRegex v) eqn:Hv; cbn [negb]; eauto.
    eexists _, _. split; [reflexivity|]. now apply (v1_domainRegex_occurs true).
  - unfold bemailpart.SetDomainName. destruct (negb _); eauto.
    rewrite Htld. eexists _, _. split; [reflexivity | apply Hgen].
  - unfold bemailpart.SetDomainTLD. destruct (negb _); eauto.
    rewrite Hname. eexists _, _. split; [reflexivity | apply Hgen].
Qed.

Lemma v1_reachable_dot (e : bEmailParts) :
  bemailpart.reachable e -> occurs "." (domain e) = true.
Proof.
  induction 1 as [e H|e e' c err _ IH Hrun].
  - now apply v1_constructed_dot.
  - destruct (v1_run_keeps_dot c e IH) as (e2 & err2 & Hrun2 & Hdot).
    rewrite Hrun in Hrun2. now injection Hrun2 as <- _.
Qed.

(** In the earlier variant too the domain of a reachable instance holds a
    dot: [strings.LastIndex] finds one, [DomainName()] and [DomainTLD()]
    return the two sides of the last dot, and no setter call panics. *)
Theorem v1_reachable_accessors (e : bEmailParts) :
  bemailpart.reachable e ->
  exists n w,
    bemailpart.Domain e = n ++ "." ++ w
    /\ occurs "." w = false
    /\ bemailpart.DomainName e = Return n
    /\ bemailpart.DomainTLD e = Return ("." ++ w)
    /\ forall c : call, exists e' err, bemailpart.run c e = Return (e', err).
Proof.
  intros He. pose proof (v1_reachable_dot e He) as Hdot.
  destruct (occurs_last _ _ Hdot) as (n & w & Hdom & Hw).
  destruct (v1_accessors_last_dot e n w Hdom Hw) as (Hname & Htld).
  exists n, w. repeat split; try assumption.
  intros c. destruct (v1_run_keeps_dot c e Hdot) as (e' & err & Hrun & _). eauto.
Qed.

Lemma v1_reachable_accessors_witness :
  let e := mkEmailParts "a" "x..co.id" in
  bemailpart.reachable e
  /\ exists n w,
       bemailpart.Domain e = n ++ "." ++ w
       /\ occurs "." w = false
       /\ bemailpart.DomainName e = Return n
       /\ bemailpart.DomainTLD e = Return ("." ++ w)
       /\ forall c : call, exists e' err, bemailpart.run c e = Return (e', err).
Proof.
  intros e.
  assert (He : bemailpart.reachable e).
  { apply (bemailpart.reach_call (mkEmailParts "a" "x..com") e
             (CallSetDomainTLD "co.id") None); [|reflexivity].
    apply (bemailpart.reach_call (mkEmailParts "a" "b.com") _
             (CallSetDomainName "x") None); [|reflexivity].
    apply bemailpart.reach_constructed, (bemailpart.by_New _ "a@b.com"). reflexivity. }
  split; [exact He | exact (v1_reachable_accessors e He)].
Defined.

(** In the earlier variant [SetDomainName(v)] doubles the dot: the current
    [DomainTLD()] starts with its dot and [generateDomain] adds another, so
    the domain becomes [v], two dots and the old TLD, and [DomainName()]
    is afterwards [v] followed by a dot. *)
Theorem v1_SetDomainName_doubles_dot (e : bEmailParts) (v : string) :
  bemailpart.reachable e -> MatchString bemailpart.domainNameRegex v = true ->
  exists w e',
    bemailpart.DomainTLD e = Return ("." ++ w)
    /\ bemailpart.SetDomainName v e = Return (e', None)
    /\ bemailpart.Domain e' = v ++ ".." ++ w
    /\ bemailpart.DomainName e' = Return (v ++ ".")
    /\ bemailpart.DomainTLD e' = Return ("." ++ w).
Proof.
  intros He Hv.
  destruct (occurs_last _ _ (v1_reachable_dot e He)) as (n & w & Hdom & Hw).
  destruct (v1_accessors_last_dot e n w Hdom Hw) as (_ & Htld).
  exists w, (mkEmailParts (username e) (v ++ ".." ++ w)).
  split; [exact Htld|]. split; [|split; [reflexivity|]].
  - unfold bemailpart.SetDomainName. rewrite Hv, Htld. reflexivity.
  - apply v1_accessors_last_dot; [|exact Hw].
    cbn [domain]. now rewrite append_assoc.
Qed.

Lemma v1_SetDomainName_doubles_dot_witness :
  let e := mkEmailParts "john.doe" "example.com" in
  (bemailpart.reachable e /\ MatchString bemailpart.domainNameRegex "newexample" = true)
  /\ exists w e',
       bemailpart.DomainTLD e = Return ("." ++ w)
       /\ bemailpart.SetDomainName "newexample" e = Return (e', None)
       /\ bemailpart.Domain e' = "newexample" ++ ".." ++ w
       /\ bemailpart.DomainName e' = Return ("newexample" ++ ".")
       /\ bemailpart.DomainTLD e' = Return ("." ++ w).
Proof.
  intros e.
  assert (He : bemailpart.reachable e).
  { apply bemailpart.reach_constructed, (bemailpart.by_New e "john.doe@example.com").
    reflexivity. }
  split; [split; [exact He | reflexivity]|].
  exact (v1_SetDomainName_doubles_dot e "newexample" He eq_refl).
Defined.

(** In the earlier variant [SetDomainTLD(v)] keeps the domain up to its
    last dot and appends a dot and [v].  A [v] without dot is then what
    [DomainTLD()] returns after its dot, with [DomainName()] unchanged; a
    [v] that brings its own leading dot leaves two dots, and [DomainName()]
    gains one. *)
Theorem v1_SetDomainTLD_result (e : bEmailParts) (v : string) :
  bemailpart.reachable e -> MatchString bemailpart.domainTLDRegex v = true ->
  exists n e',
    bemailpart.DomainName e = Return n
    /\ bemailpart.SetDomainTLD v e = Return (e', None)
    /\ bemailpart.Domain e' = n ++ "." ++ v
    /\ (occurs "." v = false ->
        bemailpart.DomainName e' = Return n
        /\ bemailpart.DomainTLD e' = Return ("." ++ v))
    /\ (forall v', v = "." ++ v' -> occurs "." v' = false ->
        bemailpart.DomainName e' = Return (n ++ ".")
        /\ bemailpart.DomainTLD e' = Return v).
Proof.
  intros He Hv.
  destruct (occurs_last _ _ (v1_reachable_dot e He)) as (n & w & Hdom & Hw).
  destruct (v1_accessors_last_dot e n w Hdom Hw) as (Hname & _).
  exists n, (mkEmailParts (username e) (n ++ "." ++ v)).
  split; [exact Hname|]. split; [|split; [reflexivity|split]].
  - unfold bemailpart.SetDomainTLD. rewrite Hv, Hname. reflexivity.
  - intros Hv'. now apply v1_accessors_last_dot.
  - intros v' -> Hv'. apply v1_accessors_last_dot; [|exact Hv'].
    cbn [domain]. now rewrite append_assoc.
Qed.

Lemma v1_SetDomainTLD_result_witness :
  let e := mkEmailParts "john.doe" "example.com" in
  (bemailpart.reachable e
   /\ MatchString bemailpart.domainTLDRegex ".org" = true
   /\ occurs "." "org" = false)
  /\ exists n e',
       bemailpart.DomainName e = Return n
       /\ bemailpart.SetDomainTLD ".org" e = Return (e', None)
       /\ bemailpart.Domain e' = n ++ "." ++ ".org"
       /\ bemailpart.DomainName e' = Return (n ++ ".")
       /\ bemailpart.DomainTLD e' = Return ".org".
Proof.
  intros e.
  assert (He : bemailpart.reachable e).
  { apply bemailpart.reach_constructed, (bemailpart.by_New e "john.doe@example.com").
    reflexivity. }
  split; [repeat split; exact He|].
  destruct (v1_SetDomainTLD_result e ".org" He eq_refl)
    as (n & e' & Hname & Hset & Hdom & _ & Hdot).
  exists n, e'. destruct (Hdot "org" eq_refl eq_refl) as [H1 H2].
  repeat split; assumption.
Defined.

(** Where the two variants agree: a string that the later full pattern
    accepts is accepted by the earlier one, and both [New] return the same
    instance; on a domain with a single dot [DomainName()] and
    [DomainTLD()] agree; and [generateDomain] agrees on a TLD that does not
    start with a dot. *)
Theorem variants_agree :
  (forall s, MatchString emailRegex s = true ->
             MatchString bemailpart.emailRegex s = true
             /\ bemailpart.New s = New s)
  /\ (forall e n w, domain e = n ++ "." ++ w ->
                    occurs "." n = false -> occurs "." w = false ->
                    bemailpart.DomainName e = DomainName e
                    /\ bemailpart.DomainTLD e = DomainTLD e)
  /\ (forall n t, strings.HasPrefix t "." = false ->
                  bemailpart.generateDomain n t = generateDomain n t).
Proof.
  split; [|split].
  - intros s H.
    assert (H1 : MatchString bemailpart.emailRegex s = true).
    { apply emailRegex_elim in H as (u & dom & -> & Hshape).
      rewrite <- (append_empty_r dom). now apply v1_emailRegex_intro. }
    split; [exact H1|]. unfold bemailpart.New, New. now rewrite H, H1.
  - intros e n w Hdom Hn Hw.
    destruct (v1_accessors_last_dot e n w Hdom Hw) as (-> & ->).
    destruct (accessors_first_dot e n w Hdom Hn) as (_ & -> & -> & _). now split.
  - intros n t Ht. rewrite generateDomain_eq, Ht. reflexivity.
Qed.

Lemma variants_agree_witness :
  let e := mkEmailParts "test.username" "test-domain.com" in
  (MatchString emailRegex "test.username@test-domain.com" = true
   /\ occurs "." "test-domain" = false /\ occurs "." "com" = false
   /\ strings.HasPrefix "com" "." = false)
  /\ (MatchString bemailpart.emailRegex "test.username@test-domain.com" = true
      /\ bemailpart.New "test.username@test-domain.com"
         = New "test.username@test-domain.com")
  /\ (bemailpart.DomainName e = DomainName e /\ bemailpart.DomainTLD e = DomainTLD e)
  /\ bemailpart.generateDomain "test-domain" "com" = generateDomain "test-domain" "com".
Proof.
  intros e. split; [repeat split|].
  destruct variants_agree as (H1 & H2 & H3).
  split; [exact (H1 "test.username@test-domain.com" eq_refl)|].
  split; [exact (H2 e "test-domain" "com" eq_refl eq_refl eq_refl)|].
  exact (H3 "test-domain" "com" eq_refl).
Defined.
